(** * Green-taxi CSV transcoder: a shallow embedding of [01.py]

    The development follows the source file top-down: byte strings and the
    few [bytes]/[str] methods the program calls, the binary file object with
    [readline]/[tell]/[seek], the compiled pattern [PATTERN_DATA] run by a
    small backtracking matcher, [read_green_taxi_csv], the column schema and
    conversion options of [parse_green_taxi_csv], and [main]. *)

From Stdlib Require Import List ZArith NArith Lia Bool Arith.
From Stdlib Require Import Strings.Byte Strings.String Strings.Ascii.
From Stdlib Require Import DecimalNat.
Import ListNotations.

Set Implicit Arguments.

(** ** Byte strings *)

Abbreviation bytes := (list byte).

Definition LF : byte := x0a.
Definition CR : byte := x0d.
Definition COMMA : byte := x2c.

(** Python [str] values are sequences of code points. *)
Abbreviation str := (list N).

Definition str_of (s : string) : str :=
  List.map N_of_ascii (list_ascii_of_string s).

Definition b_ (s : string) : bytes := list_byte_of_string s.

(** [bytes.rstrip()] removes trailing ASCII whitespace:
    space, tab, line feed, vertical tab, form feed, carriage return. *)
Definition is_space (b : byte) : bool :=
  match b with
  | x20 | x09 | x0a | x0b | x0c | x0d => true
  | _ => false
  end.

Fixpoint rstrip (s : bytes) : bytes :=
  match s with
  | [] => []
  | b :: s' =>
      match rstrip s' with
      | [] => if is_space b then [] else [b]
      | t => b :: t
      end
  end.

(** [bytes.decode('utf-8')] in strict mode: shortest-form sequences only,
    no surrogates, nothing above U+10FFFF.  [None] stands for the
    [UnicodeDecodeError] the call raises. *)
Definition in_range (lo hi n : N) : bool := (N.leb lo n && N.leb n hi)%bool.

Definition cont_bits (b : byte) : N := N.land (Byte.to_N b) 63.

Fixpoint decode (s : bytes) : option str :=
  match s with
  | [] => Some []
  | b0 :: s1 =>
      let n0 := Byte.to_N b0 in
      if N.ltb n0 128 then option_map (cons n0) (decode s1)
      else if in_range 194 223 n0 then
        match s1 with
        | b1 :: s2 =>
            if in_range 128 191 (Byte.to_N b1)
            then option_map (cons (N.land n0 31 * 64 + cont_bits b1)%N) (decode s2)
            else None
        | _ => None
        end
      else if in_range 224 239 n0 then
        match s1 with
        | b1 :: b2 :: s3 =>
            let lo := if N.eqb n0 224 then 160%N else 128%N in
            let hi := if N.eqb n0 237 then 159%N else 191%N in
            if (in_range lo hi (Byte.to_N b1) && in_range 128 191 (Byte.to_N b2))%bool
            then option_map
                   (cons (N.land n0 15 * 4096 + cont_bits b1 * 64 + cont_bits b2)%N)
                   (decode s3)
            else None
        | _ => None
        end
      else if in_range 240 244 n0 then
        match s1 with
        | b1 :: b2 :: b3 :: s4 =>
            let lo := if N.eqb n0 240 then 144%N else 128%N in
            let hi := if N.eqb n0 244 then 143%N else 191%N in
            if (in_range lo hi (Byte.to_N b1) && in_range 128 191 (Byte.to_N b2)
                && in_range 128 191 (Byte.to_N b3))%bool
            then option_map
                   (cons (N.land n0 7 * 262144 + cont_bits b1 * 4096
                          + cont_bits b2 * 64 + cont_bits b3)%N)
                   (decode s4)
            else None
        | _ => None
        end
      else None
  end.

(** [s.split(sep)] with an explicit one-element separator: always at least
    one piece, empty pieces kept. *)
Section Split.
Variable A : Type.
Variable is_sep : A -> bool.

Fixpoint split (s : list A) : list (list A) :=
  match s with
  | [] => [[]]
  | c :: s' =>
      if is_sep c then [] :: split s'
      else match split s' with
           | [] => [[c]]
           | f :: fs => (c :: f) :: fs
           end
  end.

(** A piece holds no separator. *)
Definition sep_free (f : list A) : Prop :=
  forallb (fun c => negb (is_sep c)) f = true.

(** [sep.join(pieces)] *)
Fixpoint join (sep : A) (pieces : list (list A)) : list A :=
  match pieces with
  | [] => []
  | [p] => p
  | p :: ps => p ++ sep :: join sep ps
  end.
End Split.

Definition is_comma (b : byte) : bool := Byte.eqb b COMMA.
Definition is_comma_cp (c : N) : bool := N.eqb c 44.

Abbreviation comma_free := (sep_free is_comma).

Definition is_lf (b : byte) : bool := Byte.eqb b LF.

Abbreviation lf_free := (sep_free is_lf).


Definition strs_eqb (a b : list str) : bool :=
  if list_eq_dec (list_eq_dec N.eq_dec) a b then true else false.

(** ** Configuration constants *)

(** [ENCODING = 'utf-8'] is the codec [decode] above implements. *)

Definition HEADER : list str :=
  List.map str_of
    [ "VendorID"; "lpep_pickup_datetime"; "Lpep_dropoff_datetime";
      "Store_and_fwd_flag"; "RateCodeID"; "Pickup_longitude";
      "Pickup_latitude"; "Dropoff_longitude"; "Dropoff_latitude";
      "Passenger_count"; "Trip_distance"; "Fare_amount"; "Extra";
      "MTA_tax"; "Tip_amount"; "Tolls_amount"; "Ehail_fee";
      "Total_amount"; "Payment_type"; "Trip_type" ]%string.

(** ** Regular expressions, as far as [PATTERN_DATA] needs them

    [run r s] lists every way [r] can match a prefix of [s], as pairs
    (matched bytes, remaining bytes), in the order a backtracking engine
    tries them: a greedy star offers its longest run first. *)

Inductive regex : Type :=
| Eps : regex
| Lit : byte -> regex
| Star : (byte -> bool) -> regex
| Cat : regex -> regex -> regex.

Fixpoint rep (n : nat) (r : regex) : regex :=
  match n with
  | O => Eps
  | S n' => Cat r (rep n' r)
  end.

Fixpoint star_splits (p : byte -> bool) (s : bytes) : list (bytes * bytes) :=
  match s with
  | [] => [([], [])]
  | b :: s' =>
      if p b
      then List.map (fun cr => (b :: fst cr, snd cr)) (star_splits p s') ++ [([], s)]
      else [([], s)]
  end.

Fixpoint run (r : regex) (s : bytes) : list (bytes * bytes) :=
  match r with
  | Eps => [([], s)]
  | Lit b =>
      match s with
      | c :: s' => if Byte.eqb c b then [([c], s')] else []
      | [] => []
      end
  | Star p => star_splits p s
  | Cat r1 r2 =>
      flat_map
        (fun m1 => List.map (fun m2 => (fst m1 ++ fst m2, snd m2)) (run r2 (snd m1)))
        (run r1 s)
  end.

(** [re.compile(...).match(line)] anchored by [\A]; the whole pattern is
    group 1, so the result is [match.group(1)] or [None]. *)
Definition re_match (r : regex) (line : bytes) : option bytes :=
  match run r line with
  | m :: _ => Some (fst m)
  | [] => None
  end.

Definition not_comma (b : byte) : bool := negb (Byte.eqb b COMMA).
Definition not_comma_cr_lf (b : byte) : bool :=
  negb (Byte.eqb b COMMA || Byte.eqb b CR || Byte.eqb b LF).

(** The compiled pattern, anchored at the start by [\A], is one capturing
    group holding [(?:[^,]*,){%d}] and then [[^,\r\n]*], with [%d] replaced
    by [len(HEADER) - 1]: that many times a greedy run of non-commas and a
    comma, then a greedy run of bytes that are no comma, CR or LF. *)
Definition FIELD : regex := Cat (Star not_comma) (Lit COMMA).

Definition PATTERN_DATA : regex :=
  Cat (rep (List.length HEADER - 1) FIELD) (Star not_comma_cr_lf).

(** ** Binary file objects *)

Record file : Type := mkfile { content : bytes; pos : nat }.

Definition sopen (data : bytes) : file := mkfile data 0.

(** Bytes up to and including the first line feed, or everything left. *)
Fixpoint take_line (s : bytes) : bytes :=
  match s with
  | [] => []
  | b :: s' => if Byte.eqb b LF then [b] else b :: take_line s'
  end.

Definition remaining (f : file) : bytes := skipn (pos f) (content f).

Definition readline (f : file) : bytes * file :=
  let line := take_line (remaining f) in
  (line, mkfile (content f) (pos f + List.length line)).

Definition tell (f : file) : nat := pos f.
Definition seek (f : file) (offset : nat) : file := mkfile (content f) offset.

(** ** Exceptions and outcomes *)

Inductive exn : Type :=
| InvalidHeaderError (line : bytes)
| InvalidDataError (line : bytes)
| UnicodeDecodeError (object : bytes).

Inductive outcome : Type :=
| Returned
| Raised (e : exn)
| OutOfFuel.

(** What a call of [read_green_taxi_csv] leaves behind: the source file
    object, everything written to the sink, and how the call ended.  The
    sink is a file object whose position is at its end, as the fresh
    [BytesIO] of [main] is: [fobj] is its content, and [write] appends. *)
Record run_state : Type := mkrun {
  fobj_src : file;
  fobj : bytes;
  result : outcome
}.

(** ** [read_green_taxi_csv] *)

(** The [while True] loop skipping whitespace-only lines.  [inl f] is the
    [break] (with the file positioned back at the non-blank line),
    [inr (Some f)] the early [return] at end of file. *)
Fixpoint skip_blank (fuel : nat) (f : file) : file + option file :=
  match fuel with
  | O => inr None
  | S fuel' =>
      let offset := tell f in
      let (line, f1) := readline f in
      match rstrip line with
      | _ :: _ => inl (seek f1 offset)
      | [] =>
          match line with
          | [] => inr (Some f1)
          | _ => skip_blank fuel' f1
          end
      end
  end.

(** The [for line in fobj_src] loop. *)
Fixpoint data_loop (fuel : nat) (f : file) (sink : bytes) : run_state :=
  match fuel with
  | O => mkrun f sink OutOfFuel
  | S fuel' =>
      let (line, f1) := readline f in
      match line with
      | [] => mkrun f1 sink Returned
      | _ =>
          match re_match PATTERN_DATA line with
          | None => mkrun f1 sink (Raised (InvalidDataError line))
          | Some g => data_loop fuel' f1 ((sink ++ g) ++ [LF])
          end
      end
  end.

Definition header_fields (line : bytes) : option (list str) :=
  option_map (split is_comma_cp) (decode (rstrip line)).

Definition read_green_taxi_csv_from (fuel : nat) (src : file) (sink : bytes)
  : run_state :=
  let (line, f1) := readline src in
  match header_fields line with
  | None => mkrun f1 sink (Raised (UnicodeDecodeError (rstrip line)))
  | Some fields =>
      if negb (strs_eqb fields HEADER)
      then mkrun f1 sink (Raised (InvalidHeaderError line))
      else match skip_blank fuel f1 with
           | inr None => mkrun f1 sink OutOfFuel
           | inr (Some f2) => mkrun f2 sink Returned
           | inl f2 => data_loop fuel f2 sink
           end
  end.

(** Every loop iteration consumes at least one byte, so one more unit of
    fuel than the input has bytes is always enough (proved below). *)
Definition read_green_taxi_csv (url : bytes) (sink : bytes) : run_state :=
  read_green_taxi_csv_from (S (List.length url)) (sopen url) sink.

(** ** The extraction rule in the specification's words

    "Capture the first H comma-separated fields, where a field is any run of
    non-comma characters, and the H-th field stops at comma, carriage
    return, line feed, or end-of-line." *)

Section While.
Variable A : Type.
Variable p : A -> bool.

Fixpoint take_while (s : list A) : list A :=
  match s with
  | [] => []
  | c :: s' => if p c then c :: take_while s' else []
  end.

Fixpoint drop_while (s : list A) : list A :=
  match s with
  | [] => []
  | c :: s' => if p c then drop_while s' else s
  end.
End While.

Definition fields (line : bytes) : list bytes := split is_comma line.

Definition not_cr_lf (b : byte) : bool := negb (Byte.eqb b CR || Byte.eqb b LF).

Definition stop_at_eol (f : bytes) : bytes := take_while not_cr_lf f.

Definition first_fields (H : nat) (line : bytes) : option bytes :=
  let fs := fields line in
  if List.length fs <? H then None
  else Some (join COMMA (firstn (H - 1) fs ++ [stop_at_eol (nth (H - 1) fs [])])).

(** A cleaned record: the captured fields and the newline written after them. *)
Definition cleaned (line : bytes) : bytes :=
  match first_fields (List.length HEADER) line with
  | Some g => g ++ [LF]
  | None => []
  end.

(** A line holds the fields the schema needs. *)
Definition enough_fields (l : bytes) : Prop := 20 <= List.length (fields l).

(** What [readline] can deliver: some bytes without a line feed, then the
    line feed, or, for the last line of a file, no line feed at all. *)
Definition line_shape (l : bytes) : Prop :=
  exists x, lf_free x /\ (l = x ++ [LF] \/ (l = x /\ x <> [])).

(** The twenty pieces the extraction keeps. *)
Definition kept (l : bytes) : list bytes :=
  firstn 19 (fields l) ++ [stop_at_eol (nth 19 (fields l) [])].

(** The lines of a byte stream as [readline] and file iteration deliver
    them: each ends with its line feed, except possibly the last. *)
Fixpoint split_lines (s : bytes) : list bytes :=
  match s with
  | [] => []
  | b :: s' =>
      if Byte.eqb b LF then [b] :: split_lines s'
      else match split_lines s' with
           | [] => [[b]]
           | l :: ls => (b :: l) :: ls
           end
  end.

Definition drop_line (s : bytes) : bytes := skipn (List.length (take_line s)) s.

Definition is_blank (line : bytes) : bool :=
  match rstrip line with [] => true | _ => false end.

Definition header_ok (url : bytes) : Prop :=
  header_fields (take_line url) = Some HEADER.

(** The lines the [for] loop iterates over: what follows the header line,
    less the leading whitespace-only lines. *)
Definition data_lines (url : bytes) : list bytes :=
  drop_while is_blank (split_lines (drop_line url)).

(** The [for] loop of [read_green_taxi_csv] seen on the list of lines it
    iterates over: [data] is the content of the source, [p] the position
    before the first of [ls]. *)
Fixpoint clean_loop (data : bytes) (ls : list bytes) (p : nat) (sink : bytes)
  : run_state :=
  match ls with
  | [] => mkrun (mkfile data p) sink Returned
  | l :: ls' =>
      match re_match PATTERN_DATA l with
      | None => mkrun (mkfile data (p + List.length l)) sink (Raised (InvalidDataError l))
      | Some g => clean_loop data ls' (p + List.length l) ((sink ++ g) ++ [LF])
      end
  end.

(** ** Column types and the schema *)

Inductive DataType : Type :=
| int16
| timestamp (unit tz : string)
| bool_
| decimal128 (precision scale : nat).

Definition INTEGER : DataType := int16.
Definition TIMESTAMP : DataType := timestamp "s" "America/New_York".
Definition BOOLEAN : DataType := bool_.
Definition DECIMAL_LON : DataType := decimal128 18 15.
Definition DECIMAL_LAT : DataType := decimal128 17 15.
Definition DECIMAL_DISTANCE : DataType := decimal128 4 2.
Definition DECIMAL_DOLLAR : DataType := decimal128 6 2.

Definition SCHEMA : list (str * DataType) :=
  List.map (fun nt => (str_of (fst nt), snd nt))
    [ ("VendorID", INTEGER);
      ("lpep_pickup_datetime", TIMESTAMP);
      ("lpep_dropoff_datetime", TIMESTAMP);
      ("Store_and_fwd_flag", BOOLEAN);
      ("RateCodeID", INTEGER);
      ("Pickup_longitude", DECIMAL_LON);
      ("Pickup_latitude", DECIMAL_LAT);
      ("Dropoff_longitude", DECIMAL_LON);
      ("Dropoff_latitude", DECIMAL_LAT);
      ("Passenger_count", INTEGER);
      ("Trip_distance", DECIMAL_DISTANCE);
      ("Fare_amount", DECIMAL_DOLLAR);
      ("Extra", DECIMAL_DOLLAR);
      ("MTA_tax", DECIMAL_DOLLAR);
      ("Tip_amount", DECIMAL_DOLLAR);
      ("Tolls_amount", DECIMAL_DOLLAR);
      ("Ehail_fee", DECIMAL_DOLLAR);
      ("Total_amount", DECIMAL_DOLLAR);
      ("Payment_type", INTEGER);
      ("Trip_type", INTEGER) ]%string.

(** [SCHEMA.names] and [SCHEMA.types] *)
Definition names (schema : list (str * DataType)) : list str := List.map fst schema.
Definition types (schema : list (str * DataType)) : list DataType := List.map snd schema.

(** ** The options [parse_green_taxi_csv] builds *)

Record ConvertOptions : Type := mkConvertOptions {
  column_types : list (str * DataType);
  false_values : list bytes;
  null_values : list bytes;
  timestamp_parsers : list string;
  true_values : list bytes
}.

Record ParseOptions : Type := mkParseOptions { quote_char : option byte }.

Record ReadOptions : Type := mkReadOptions {
  column_names : list str;
  encoding : string
}.

Definition convert_options : ConvertOptions :=
  {| column_types := SCHEMA;
     false_values := [b_ "N"];
     null_values := [b_ ""];
     timestamp_parsers := ["%Y-%m-%d %H:%M:%S"%string];
     true_values := [b_ "Y"] |}.

Definition parse_options : ParseOptions := {| quote_char := None |}.

Definition read_options : ReadOptions :=
  {| column_names := names SCHEMA; encoding := "utf-8" |}.

(** ** Typed values and tables *)

Inductive value : Type :=
| VNull
| VInt (n : Z)
| VTimestamp (utc_seconds : Z)
| VBool (b : bool)
| VDecimal (mantissa : Z) (scale : nat).

Record Table : Type := mkTable {
  schema : list (str * DataType);
  columns : list (list value)
}.

Inductive arrow_error : Type :=
| ColumnCountError (row expected got : nat)
| ConversionError (column : str) (row : nat) (token : bytes).

(** ** Cell conversion *)

Definition bytes_eqb (a b : bytes) : bool :=
  if list_eq_dec Byte.byte_eq_dec a b then true else false.

Definition member (tok : bytes) (l : list bytes) : bool := existsb (bytes_eqb tok) l.

Definition is_digit (b : byte) : bool := in_range 48 57 (Byte.to_N b).
Definition digit_val (b : byte) : Z := Z.of_N (Byte.to_N b) - 48.

Definition digits_value (ds : bytes) : Z :=
  fold_left (fun acc b => 10 * acc + digit_val b)%Z ds 0%Z.

Definition MINUS : byte := x2d.
Definition DOT : byte := x2e.
Definition ZERO : byte := x30.

Definition strip_sign (tok : bytes) : bool * bytes :=
  match tok with
  | b :: t => if Byte.eqb b MINUS then (true, t) else (false, tok)
  | [] => (false, [])
  end.

(** Modelled from the spec: the SmallInt rule of pyarrow's CSV reader, which
    is not part of the repository: "parse token as base-10 integer; fail if
    out of 16-bit signed range or non-numeric". *)
Definition parse_int16 (tok : bytes) : option Z :=
  let (neg, ds) := strip_sign tok in
  match ds with
  | [] => None
  | _ =>
      if forallb is_digit ds
      then let n := if neg then (- digits_value ds)%Z else digits_value ds in
           if ((-32768 <=? n) && (n <=? 32767))%Z then Some n else None
      else None
  end.

(** Modelled from the spec: the Decimal(p, s) rule of pyarrow's CSV reader,
    which is not part of the repository: "parse token as an exact base-10
    fixed-point number with exactly s fractional digits reconstructed from
    the literal text (never via binary floating point); fail if the
    integral-digit count would exceed p - s".  The value is a scaled
    integer: the mantissa at the column's scale.  A literal with fewer than
    [s] fractional digits is padded with zeros, one with more is refused. *)
Definition parse_decimal (precision scale : nat) (tok : bytes) : option Z :=
  let (neg, body) := strip_sign tok in
  let ip := take_while is_digit body in
  let frac :=
    match drop_while is_digit body with
    | [] => Some []
    | b :: fr => if (Byte.eqb b DOT && forallb is_digit fr)%bool then Some fr else None
    end in
  match frac with
  | None => None
  | Some fr =>
      if (List.length ip + List.length fr =? 0) then None
      else if scale <? List.length fr then None
      else if (10 ^ Z.of_nat (precision - scale) <=? digits_value ip)%Z then None
      else
        let m := (digits_value ip * 10 ^ Z.of_nat scale
                  + digits_value fr * 10 ^ Z.of_nat (scale - List.length fr))%Z in
        Some (if neg then (- m)%Z else m)
  end.

(** Modelled from the spec: "decoding it back", the other half of the
    round trip of a decimal cell, which the repository leaves to pyarrow: a
    scaled integer written as sign, integral digits without leading zeros,
    the point, and exactly [scale] fractional digits.  The spec names this
    text only through the round trip; on the values of a column the round
    trip of canonical literals leaves no other choice
    ([format_decimal_is_forced]). *)
Definition digit_byte (d : Z) : byte :=
  match Byte.of_N (Z.to_N (d + 48)) with
  | Some b => b
  | None => ZERO
  end.

Fixpoint to_digits (k : nat) (n : Z) : bytes :=
  match k with
  | O => []
  | S k' => to_digits k' (n / 10) ++ [digit_byte (n mod 10)]
  end.

Fixpoint strip_zeros (ds : bytes) : bytes :=
  match ds with
  | b :: ((_ :: _) as t) => if Byte.eqb b ZERO then strip_zeros t else ds
  | _ => ds
  end.

Definition format_decimal (precision scale : nat) (m : Z) : bytes :=
  let a := Z.abs m in
  (if (m <? 0)%Z then [MINUS] else [])
    ++ strip_zeros (to_digits (S (precision - scale)) (a / 10 ^ Z.of_nat scale))
    ++ DOT :: to_digits scale (a mod 10 ^ Z.of_nat scale).

(** A decimal literal: optional minus sign, integral digits, the point,
    fractional digits. *)
Definition decimal_token (neg : bool) (ip fr : bytes) : bytes :=
  (if neg then [MINUS] else []) ++ ip ++ DOT :: fr.

(** A canonical literal at scale [s]: at least one integral digit and no
    zero in front of another integral digit, exactly [s] fractional
    digits, and no minus sign in front of zero. *)
Definition canonical (s : nat) (neg : bool) (ip fr : bytes) : Prop :=
  ip <> [] /\ forallb is_digit ip = true /\ forallb is_digit fr = true
  /\ List.length fr = s /\ strip_zeros ip = ip
  /\ (neg = true -> digits_value (ip ++ fr) <> 0%Z).

(** The value of a literal from its sign and the number its digits spell. *)
Definition signed (neg : bool) (m : Z) : Z := if neg then (- m)%Z else m.

Section Encoder.
(** The one conversion left open: turning a wall-clock token into an
    instant needs the rules of the named time zone, which live in the
    time-zone database and in pyarrow, outside the repository.
    [strptime fmt tz tok] is the instant in seconds since the epoch, or
    [None] when the token does not parse. *)
Variable strptime : string -> string -> bytes -> option Z.

(** Modelled from the spec: the column-by-column conversion rules of
    pyarrow's CSV reader, which is not part of the repository; the token
    sets come from [convert_options].  A token in [null_values] is null
    for every type; a Bool token must be in [true_values] or
    [false_values]. *)
Definition convert_cell (opts : ConvertOptions) (ty : DataType) (tok : bytes)
  : option value :=
  if member tok (null_values opts) then Some VNull
  else match ty with
       | int16 => option_map VInt (parse_int16 tok)
       | timestamp _ tz =>
           match timestamp_parsers opts with
           | fmt :: _ => option_map VTimestamp (strptime fmt tz tok)
           | [] => None
           end
       | bool_ =>
           if member tok (true_values opts) then Some (VBool true)
           else if member tok (false_values opts) then Some (VBool false)
           else None
       | decimal128 p s =>
           option_map (fun m => VDecimal m s) (parse_decimal p s tok)
       end.

(** Modelled from the spec: one record of pyarrow's CSV reader, which is
    not part of the repository: each token converted by its column's type,
    the first cell that does not convert being a [ConversionError] "naming
    the column, row index, and raw token". *)
Fixpoint convert_row (opts : ConvertOptions) (row : nat)
         (cols : list (str * DataType)) (toks : list bytes)
  : arrow_error + list value :=
  match cols, toks with
  | [], _ => inr []
  | _ :: _, [] => inr []
  | (name, ty) :: cols', tok :: toks' =>
      match convert_cell opts ty tok with
      | None => inl (ConversionError name row tok)
      | Some v =>
          match convert_row opts row cols' toks' with
          | inl e => inl e
          | inr vs => inr (v :: vs)
          end
      end
  end.

(** A cleaned line without its newline. *)
Definition chomp (line : bytes) : bytes := take_while (fun b => negb (Byte.eqb b LF)) line.

(** Modelled from the spec: the records of pyarrow's CSV reader, which is
    not part of the repository, in input order: a line is split on commas,
    without quoting, and has to hold one token per column. *)
Fixpoint convert_rows (opts : ConvertOptions) (ropts : ReadOptions) (row : nat)
         (lines : list bytes) : arrow_error + list (list value) :=
  match lines with
  | [] => inr []
  | l :: ls =>
      let toks := fields (chomp l) in
      let cols := combine (column_names ropts) (types (column_types opts)) in
      if negb (List.length toks =? List.length (column_names ropts))
      then inl (ColumnCountError row (List.length (column_names ropts)) (List.length toks))
      else match convert_row opts row cols toks with
           | inl e => inl e
           | inr vs =>
               match convert_rows opts ropts (S row) ls with
               | inl e => inl e
               | inr rows => inr (vs :: rows)
               end
           end
  end.

(** Column [i] of a list of rows. *)
Definition column (rows : list (list value)) (i : nat) : list value :=
  List.map (fun r => nth i r VNull) rows.

(** Modelled from the spec: [pyarrow.csv.read_csv], which is not part
    of the repository: "reads cleaned lines as comma-separated records
    with no quoting support ... produces one column per schema entry, all
    of equal row count; row order preserved", failing on the first cell
    that does not convert. *)
Definition read_csv (buf : bytes) (opts : ConvertOptions) (popts : ParseOptions)
           (ropts : ReadOptions) : arrow_error + Table :=
  match convert_rows opts ropts 0 (split_lines buf) with
  | inl e => inl e
  | inr rows =>
      let cols := combine (column_names ropts) (types (column_types opts)) in
      inr (mkTable cols (List.map (column rows) (seq 0 (List.length cols))))
  end.

Definition parse_green_taxi_csv (buf : bytes) : arrow_error + Table :=
  read_csv buf convert_options parse_options read_options.

(** ** [main] *)

Inductive main_result : Type :=
| Failed (e : exn)
| ArrowInvalid (e : arrow_error)
| Diverged
| Written (path : string) (table : Table).

(** [url] stands for the bytes [sopen] delivers for the hard-coded URL.
    The buffer starts empty; an exception of either step leaves the
    [with] block, so the buffer is dropped and nothing is written. *)
Definition main (url : bytes) : main_result :=
  let r := read_green_taxi_csv url [] in
  match result r with
  | Raised e => Failed e
  | OutOfFuel => Diverged
  | Returned =>
      match parse_green_taxi_csv (fobj r) with
      | inl e => ArrowInvalid e
      | inr table => Written "01.parquet" table
      end
  end.
End Encoder.

(** ** Well-typed tables *)

(** A value fits a column type; null fits every type. *)
Definition has_type (ty : DataType) (v : value) : Prop :=
  match v, ty with
  | VNull, _ => True
  | VInt n, int16 => (-32768 <= n <= 32767)%Z
  | VTimestamp _, timestamp _ _ => True
  | VBool _, bool_ => True
  | VDecimal m s, decimal128 p s' =>
      s = s' /\ (Z.abs m < 10 ^ Z.of_nat (p - s') * 10 ^ Z.of_nat s')%Z
  | _, _ => False
  end.

(** A complete table of [n] rows: the schema's names and types, one column
    per entry, every column of [n] values of the entry's type. *)
Definition complete_table (n : nat) (t : Table) : Prop :=
  schema t = SCHEMA
  /\ Forall2 (fun nt col => List.length col = n /\ Forall (has_type (snd nt)) col)
             SCHEMA (columns t).

(** ** Sample inputs *)

Definition header_line : bytes :=
  b_ "VendorID,lpep_pickup_datetime,Lpep_dropoff_datetime,Store_and_fwd_flag,RateCodeID,Pickup_longitude,Pickup_latitude,Dropoff_longitude,Dropoff_latitude,Passenger_count,Trip_distance,Fare_amount,Extra,MTA_tax,Tip_amount,Tolls_amount,Ehail_fee,Total_amount,Payment_type,Trip_type"
  ++ [LF].

(** The header as the schema spells it: the third name in lower case. *)
Definition schema_header_line : bytes :=
  b_ "VendorID,lpep_pickup_datetime,lpep_dropoff_datetime,Store_and_fwd_flag,RateCodeID,Pickup_longitude,Pickup_latitude,Dropoff_longitude,Dropoff_latitude,Passenger_count,Trip_distance,Fare_amount,Extra,MTA_tax,Tip_amount,Tolls_amount,Ehail_fee,Total_amount,Payment_type,Trip_type"
  ++ [LF].

(** Twenty fields and three empty ones more. *)
Definition sample_row : bytes :=
  b_ "2,2013-09-01 00:02:00,2013-09-01 00:54:51,N,1,-73.952407836914062,40.810726165771484,-73.983940124511719,40.676284790039063,5,14.35,50.5,0.5,0.5,10.3,0,,61.8,1,1,,,"
  ++ [LF].

(** A cleaned record whose Store_and_fwd_flag is a lower-case y. *)
Definition lower_case_flag_row : bytes :=
  b_ "2,2013-09-01 00:02:00,2013-09-01 00:54:51,y,1,-73.952407836914062,40.810726165771484,-73.983940124511719,40.676284790039063,5,14.35,50.5,0.5,0.5,10.3,0,,61.8,1,1"
  ++ [LF].

(** Eighteen fields. *)
Definition short_row : bytes :=
  b_ "2,2013-09-01 00:02:00,2013-09-01 00:54:51,N,1,-73.952407836914062,40.810726165771484,-73.983940124511719,40.676284790039063,5,14.35,50.5,0.5,0.5,10.3,0,,61.8"
  ++ [LF].

Definition blank_row : bytes := b_ "  " ++ [CR; LF].

Definition sample_url : bytes := header_line ++ [LF] ++ sample_row ++ sample_row.
Definition short_url : bytes := header_line ++ sample_row ++ short_row ++ sample_row.
Definition blank_url : bytes := header_line ++ sample_row ++ blank_row ++ sample_row.
Definition schema_header_url : bytes := schema_header_line ++ sample_row.
Definition not_utf8_url : bytes := [xff; LF] ++ sample_row.

(** A stand-in for the time-zone aware parser, to run the samples: every
    token is the epoch. *)
Definition sample_strptime (fmt tz : string) (tok : bytes) : option Z := Some 0%Z.

(** * Feature query: a shallow embedding of [build_query] of [02.py] *)

(** ** The [str] operations [build_query] calls *)

Definition NL : N := 10.
Definition LBRACE : N := 123.
Definition RBRACE : N := 125.

(** [sep.join(pieces)] for a separator of any length. *)
Fixpoint str_join (sep : str) (pieces : list str) : str :=
  match pieces with
  | [] => []
  | [p] => p
  | p :: ps => p ++ sep ++ str_join sep ps
  end.

(** The decimal digits of a non-negative [int], as an f-string field
    renders it. *)
Fixpoint uint_str (d : Decimal.uint) : str :=
  match d with
  | Decimal.Nil => []
  | Decimal.D0 d' => 48%N :: uint_str d'
  | Decimal.D1 d' => 49%N :: uint_str d'
  | Decimal.D2 d' => 50%N :: uint_str d'
  | Decimal.D3 d' => 51%N :: uint_str d'
  | Decimal.D4 d' => 52%N :: uint_str d'
  | Decimal.D5 d' => 53%N :: uint_str d'
  | Decimal.D6 d' => 54%N :: uint_str d'
  | Decimal.D7 d' => 55%N :: uint_str d'
  | Decimal.D8 d' => 56%N :: uint_str d'
  | Decimal.D9 d' => 57%N :: uint_str d'
  end.

Definition str_of_nat (n : nat) : str := uint_str (Nat.to_uint n).

(** [textwrap.dedent(text)]: a line of spaces and tabs only becomes empty;
    the margin is the longest run of spaces and tabs that starts every other
    line; a margin that is not empty is removed from each line it starts. *)
Definition is_nl (c : N) : bool := N.eqb c NL.

Definition is_blank_cp (c : N) : bool := N.eqb c 32 || N.eqb c 9.

Definition blank_out (l : str) : str :=
  if forallb is_blank_cp l then [] else l.

Definition indent (l : str) : str := take_while is_blank_cp l.

Fixpoint common_prefix (a b : str) : str :=
  match a, b with
  | x :: a', y :: b' => if N.eqb x y then x :: common_prefix a' b' else []
  | _, _ => []
  end.

Definition margin (ls : list str) : option str :=
  fold_left
    (fun m l =>
       match l, m with
       | [], _ => m
       | _ :: _, None => Some (indent l)
       | _ :: _, Some m' => Some (common_prefix m' (indent l))
       end)
    ls None.

Fixpoint strip_prefix (m l : str) : option str :=
  match m, l with
  | [], _ => Some l
  | x :: m', y :: l' => if N.eqb x y then strip_prefix m' l' else None
  | _ :: _, [] => None
  end.

Definition remove_margin (m l : str) : str :=
  match strip_prefix m l with
  | Some r => r
  | None => l
  end.

Definition dedent (text : str) : str :=
  let ls := List.map blank_out (split is_nl text) in
  match margin ls with
  | Some (c :: m) => join NL (List.map (remove_margin (c :: m)) ls)
  | _ => join NL ls
  end.

(** [template.format] with keyword arguments, for the replacement fields [build_query]
    uses: a field is a keyword name between braces, a doubled brace stands
    for one brace.  A name that is not among the keywords raises [KeyError],
    a brace left alone raises [ValueError].  Positional fields, attribute
    and index lookups, conversions and format specifications are
    [NotModelled]. *)
Inductive format_exn : Type :=
| KeyError : str -> format_exn
| ValueError : format_exn
| NotModelled : format_exn.

Definition is_letter (c : N) : bool :=
  ((65 <=? c) && (c <=? 90) || (97 <=? c) && (c <=? 122) || (c =? 95))%N.

Definition is_name_cp (c : N) : bool :=
  is_letter c || ((48 <=? c) && (c <=? 57))%N.

Definition is_identifier (name : str) : bool :=
  match name with
  | [] => false
  | c :: t => is_letter c && forallb is_name_cp t
  end.

Definition str_eqb (a b : str) : bool :=
  if list_eq_dec N.eq_dec a b then true else false.

Fixpoint lookup (key : str) (kwargs : list (str * str)) : option str :=
  match kwargs with
  | [] => None
  | (k, v) :: rest => if str_eqb key k then Some v else lookup key rest
  end.

(** The text produced so far goes in front of what the rest of the
    template produces; an exception in the rest is the outcome. *)
Definition emit (s : str) (rest : str + format_exn) : str + format_exn :=
  match rest with
  | inl r => inl (s ++ r)
  | inr e => inr e
  end.

(** [field] is [None] in literal text and holds the name read so far, last
    code point first, inside a replacement field. *)
Fixpoint format_scan (kwargs : list (str * str)) (field : option str) (s : str)
  : str + format_exn :=
  match s with
  | [] =>
      match field with
      | None => inl []
      | Some _ => inr ValueError
      end
  | c :: t =>
      match field with
      | Some name =>
          if N.eqb c RBRACE then
            if is_identifier (rev name) then
              match lookup (rev name) kwargs with
              | Some v => emit v (format_scan kwargs None t)
              | None => inr (KeyError (rev name))
              end
            else inr NotModelled
          else format_scan kwargs (Some (c :: name)) t
      | None =>
          if N.eqb c LBRACE then
            match t with
            | [] => inr ValueError
            | c' :: t' =>
                if N.eqb c' LBRACE then emit [LBRACE] (format_scan kwargs None t')
                else format_scan kwargs (Some []) t
            end
          else if N.eqb c RBRACE then
            match t with
            | [] => inr ValueError
            | c' :: t' =>
                if N.eqb c' RBRACE then emit [RBRACE] (format_scan kwargs None t')
                else inr ValueError
            end
          else emit [c] (format_scan kwargs None t)
      end
  end.

Definition str_format (template : str) (kwargs : list (str * str)) : str + format_exn :=
  format_scan kwargs None template.

(** ** [build_query] *)

Definition template : str :=
  dedent (join NL (List.map str_of
    [ "        SELECT";
      "        *,";
      "        {one_hot_hour},";
      "        {one_hot_dow},";
      "        {duration},";
      "        {jfk}";
      "        FROM";
      "        {table_alias}" ]%string)).

(** A [StringIO] that is only written to is the text written so far.
    [write_cases] is the loop over [range(num)] shared by the two one-hot
    encodings: the select item of [i], then a comma and a line feed unless
    [i] is the last index. *)
Fixpoint write_cases (case : nat -> str) (num : nat) (range : list nat) (io : str) : str :=
  match range with
  | [] => io
  | i :: range' =>
      let io := io ++ case i in
      let io := if i <? num - 1 then io ++ [44%N; NL] else io in
      write_cases case num range' io
  end.

Definition hour_case (hour : nat) : str :=
  (str_of "CASE WHEN HOUR(lpep_pickup_datetime) = " ++ str_of_nat hour
     ++ str_of " THEN 1 ")
    ++ str_of "ELSE 0 END AS Pickup_hour_is_" ++ str_of_nat hour.

Definition one_hot_hour : str :=
  let num_hours := 24 in
  write_cases hour_case num_hours (seq 0 num_hours) [].

Definition dow_case (dow : nat) : str :=
  (str_of "CASE WHEN DAYOFWEEK(lpep_pickup_datetime) = " ++ str_of_nat dow
     ++ str_of " THEN 1 ")
    ++ str_of "ELSE 0 END AS Pickup_dow_is_" ++ str_of_nat dow.

Definition one_hot_dow : str :=
  let num_days := 7 in
  write_cases dow_case num_days (seq 0 num_days) [].

Definition duration : str :=
  str_of "CAST(lpep_dropoff_datetime AS LONG) - "
    ++ str_of "CAST(lpep_pickup_datetime AS LONG) AS Duration_seconds".

Section Query.

(** The corners of the bounding box are [float] literals; [lon_min],
    [lon_max], [lat_min] and [lat_max] stand for the text an f-string field
    renders each of them as. *)
Variables lon_min lon_max lat_min lat_max : str.

Definition jfk : str :=
  (str_of "CASE WHEN (Pickup_longitude BETWEEN " ++ lon_min ++ str_of " AND "
     ++ lon_max ++ str_of " ")
    ++ (str_of "AND Pickup_latitude BETWEEN " ++ lat_min ++ str_of " AND "
          ++ lat_max ++ str_of ") OR ")
    ++ (str_of "(Dropoff_longitude BETWEEN " ++ lon_min ++ str_of " AND "
          ++ lon_max ++ str_of " AND ")
    ++ (str_of "Dropoff_latitude BETWEEN " ++ lat_min ++ str_of " AND "
          ++ lat_max ++ str_of ") THEN 1 ")
    ++ str_of "ELSE 0 END AS Pickup_or_dropoff_at_JFK".

Definition build_query (table_alias : str) : str + format_exn :=
  str_format template
    [ (str_of "one_hot_hour", one_hot_hour);
      (str_of "one_hot_dow", one_hot_dow);
      (str_of "duration", duration);
      (str_of "jfk", jfk);
      (str_of "table_alias", table_alias) ].

End Query.

(** * Properties *)
(** ** Splitting and joining *)

Section SplitFacts.
Variable A : Type.
Variable is_sep : A -> bool.
Variable sep : A.
Hypothesis is_sep_sep : forall c, is_sep c = true -> c = sep.
Hypothesis sep_is_sep : is_sep sep = true.

Lemma split_nonempty (s : list A) : split is_sep s <> [].
Proof.
  destruct s as [|c s]; simpl; [discriminate|].
  destruct (is_sep c); [discriminate|].
  destruct (split is_sep s); discriminate.
Qed.

Lemma split_length_pos (s : list A) : 1 <= List.length (split is_sep s).
Proof.
  pose proof (split_nonempty s) as H.
  destruct (split is_sep s); [congruence | simpl; lia].
Qed.

Lemma split_sep_free (s : list A) : Forall (sep_free is_sep) (split is_sep s).
Proof.
  induction s as [|c s IH]; simpl.
  - constructor; [reflexivity | constructor].
  - destruct (is_sep c) eqn:Hc.
    + constructor; [reflexivity | exact IH].
    + destruct (split is_sep s) as [|f fs].
      * constructor; [|constructor]. unfold sep_free; simpl. now rewrite Hc.
      * inversion IH as [|? ? Hf Hfs]; subst.
        constructor; [|exact Hfs]. unfold sep_free in *; simpl. now rewrite Hc.
Qed.

Lemma join_split (s : list A) : join sep (split is_sep s) = s.
Proof.
  induction s as [|c s IH]; simpl; [reflexivity|].
  destruct (is_sep c) eqn:Hc.
  - pose proof (split_nonempty s) as Hne.
    destruct (split is_sep s) as [|f fs]; [congruence|].
    apply is_sep_sep in Hc. subst c. simpl. f_equal. exact IH.
  - pose proof (split_nonempty s) as Hne.
    destruct (split is_sep s) as [|f fs]; [congruence|].
    destruct fs as [|g fs]; simpl in *; now rewrite IH.
Qed.

Lemma split_sep_free_one (f : list A) : sep_free is_sep f -> split is_sep f = [f].
Proof.
  unfold sep_free. induction f as [|c f IH]; simpl; [reflexivity|].
  intros H. apply andb_prop in H as [Hc Hf].
  apply negb_true_iff in Hc. rewrite Hc, (IH Hf). reflexivity.
Qed.

Lemma split_app_sep (f r : list A) :
  sep_free is_sep f -> split is_sep (f ++ sep :: r) = f :: split is_sep r.
Proof.
  unfold sep_free. induction f as [|c f IH]; simpl.
  - now rewrite sep_is_sep.
  - intros H. apply andb_prop in H as [Hc Hf].
    apply negb_true_iff in Hc. rewrite Hc, (IH Hf). reflexivity.
Qed.

Lemma split_join (ps : list (list A)) :
  ps <> [] -> Forall (sep_free is_sep) ps -> split is_sep (join sep ps) = ps.
Proof.
  induction ps as [|p ps IH]; [congruence|].
  intros _ Hall. inversion Hall as [|? ? Hp Hps]; subst.
  destruct ps as [|q ps].
  - simpl. now apply split_sep_free_one.
  - change (join sep (p :: q :: ps)) with (p ++ sep :: join sep (q :: ps)).
    rewrite split_app_sep by exact Hp.
    f_equal. apply IH; [discriminate | exact Hps].
Qed.

Lemma join_snoc (l : list (list A)) (x : list A) :
  join sep (l ++ [x]) = List.concat (List.map (fun f => f ++ [sep]) l) ++ x.
Proof.
  induction l as [|f l IH]; simpl; [reflexivity|].
  destruct (l ++ [x]) as [|g t] eqn:E.
  - now destruct l.
  - rewrite IH. rewrite <- !app_assoc. reflexivity.
Qed.

Lemma join_skipn (n : nat) (ps : list (list A)) :
  n < List.length ps ->
  join sep ps = List.concat (List.map (fun f => f ++ [sep]) (firstn n ps)) ++ join sep (skipn n ps).
Proof.
  revert ps. induction n as [|n IH]; intros ps Hn; [reflexivity|].
  destruct ps as [|p ps]; simpl in Hn; [lia|].
  destruct ps as [|q ps]; simpl in Hn; [lia|].
  change (join sep (p :: q :: ps)) with (p ++ sep :: join sep (q :: ps)).
  rewrite (IH (q :: ps)) by (simpl; lia).
  simpl firstn. simpl skipn. simpl List.map. simpl List.concat.
  rewrite <- !app_assoc. reflexivity.
Qed.
End SplitFacts.

(** ** Bytes *)

Lemma is_comma_eq (b : byte) : is_comma b = true -> b = COMMA.
Proof. apply Byte.byte_dec_bl. Qed.

Lemma is_comma_COMMA : is_comma COMMA = true.
Proof. reflexivity. Qed.


Lemma join_fields (line : bytes) : join COMMA (fields line) = line.
Proof. apply join_split. exact is_comma_eq. Qed.

(** ** What the matcher does on [PATTERN_DATA] *)

Lemma star_splits_head (p : byte -> bool) (s : bytes) :
  exists t, star_splits p s = (take_while p s, drop_while p s) :: t.
Proof.
  induction s as [|b s [t IH]]; simpl.
  - now exists [].
  - destruct (p b).
    + rewrite IH. simpl. eexists. reflexivity.
    + now exists [].
Qed.

Lemma flat_map_map (X Y Z : Type) (g : X -> Y) (f : Y -> list Z) (l : list X) :
  flat_map f (List.map g l) = flat_map (fun x => f (g x)) l.
Proof.
  induction l as [|x l IH]; simpl; [reflexivity | now rewrite IH].
Qed.

Lemma map_flat_map (X Y Z : Type) (g : Y -> Z) (f : X -> list Y) (l : list X) :
  List.map g (flat_map f l) = flat_map (fun x => List.map g (f x)) l.
Proof.
  induction l as [|x l IH]; simpl; [reflexivity|].
  now rewrite List.map_app, IH.
Qed.

(** One field and its comma: the greedy run has to end at the first
    comma, every shorter run is followed by a non-comma. *)
Lemma run_FIELD (s : bytes) :
  run FIELD s =
  match fields s with
  | f :: (_ :: _) as t => [(f ++ [COMMA], join COMMA t)]
  | _ => []
  end.
Proof.
  unfold FIELD, fields. induction s as [|b s IH]; [reflexivity|].
  pose proof (split_nonempty is_comma s) as Hne.
  destruct (is_comma b) eqn:Hb.
  - simpl. unfold not_comma. fold (is_comma b). rewrite Hb. simpl.
    fold (is_comma b). rewrite Hb.
    pose proof (join_split is_comma is_comma_eq s) as Hj.
    destruct (split is_comma s) as [|g t]; [congruence|].
    rewrite Hj, (is_comma_eq _ Hb). reflexivity.
  - transitivity
      (List.map (fun m => (b :: fst m, snd m))
         (run (Cat (Star not_comma) (Lit COMMA)) s)).
    + simpl. unfold not_comma at 1. fold (is_comma b). rewrite Hb. simpl negb. cbv iota.
      rewrite flat_map_app, flat_map_map. simpl.
      fold (is_comma b). rewrite Hb. rewrite app_nil_r.
      rewrite map_flat_map. apply flat_map_ext. intros [c r]. simpl.
      rewrite List.map_map. reflexivity.
    + rewrite IH. simpl split. rewrite Hb.
      destruct (split is_comma s) as [|f [|g t]]; [congruence| reflexivity | reflexivity].
Qed.

(** [n] fields with their commas. *)
Lemma run_rep_FIELD (n : nat) (s : bytes) :
  run (rep n FIELD) s =
  if n <? List.length (fields s)
  then [(List.concat (List.map (fun f => f ++ [COMMA]) (firstn n (fields s))),
         join COMMA (skipn n (fields s)))]
  else [].
Proof.
  revert s. induction n as [|n IH]; intros s.
  - pose proof (split_length_pos is_comma s) as Hl.
    fold (fields s) in Hl.
    destruct (Nat.ltb_spec 0 (List.length (fields s))); [|unfold fields in *; lia].
    simpl. now rewrite join_fields.
  - change (rep (S n) FIELD) with (Cat FIELD (rep n FIELD)).
    cbn [run]. rewrite run_FIELD.
    pose proof (split_sep_free is_comma s) as Hfree. unfold fields in *.
    destruct (split is_comma s) as [|f [|g t]] eqn:E; [reflexivity | reflexivity |].
    cbn [flat_map fst snd]. rewrite app_nil_r, IH.
    inversion Hfree as [|? ? Hf Hgt]; subst.
    unfold fields.
    rewrite split_join
      by first [exact is_comma_COMMA | discriminate | assumption].
    change (S n <? List.length (f :: g :: t)) with (n <? List.length (g :: t)).
    destruct (n <? List.length (g :: t)); [|reflexivity].
    cbn [List.map fst snd firstn skipn List.concat].
    rewrite <- app_assoc. reflexivity.
Qed.

Lemma take_while_stop (g r : bytes) :
  comma_free g ->
  take_while not_comma_cr_lf (g ++ COMMA :: r) = stop_at_eol g.
Proof.
  unfold stop_at_eol, sep_free. induction g as [|b g IH]; intros H; [reflexivity|].
  simpl in H. apply andb_prop in H as [Hb Hg].
  simpl. unfold not_comma_cr_lf at 1, not_cr_lf at 1.
  unfold is_comma in Hb. apply negb_true_iff in Hb. rewrite Hb. simpl orb.
  destruct (negb _); [now rewrite IH | reflexivity].
Qed.

Lemma take_while_stop_end (g : bytes) :
  comma_free g -> take_while not_comma_cr_lf g = stop_at_eol g.
Proof.
  unfold stop_at_eol, sep_free. induction g as [|b g IH]; intros H; [reflexivity|].
  simpl in H. apply andb_prop in H as [Hb Hg].
  simpl. unfold not_comma_cr_lf at 1, not_cr_lf at 1.
  unfold is_comma in Hb. apply negb_true_iff in Hb. rewrite Hb. simpl orb.
  destruct (negb _); [now rewrite IH | reflexivity].
Qed.

Lemma take_while_join (ps : list bytes) :
  Forall comma_free ps ->
  take_while not_comma_cr_lf (join COMMA ps) = stop_at_eol (hd [] ps).
Proof.
  intros H. destruct ps as [|g [|h t]]; [reflexivity | |];
    inversion H as [|? ? Hg Ht]; subst.
  - simpl. now apply take_while_stop_end.
  - change (join COMMA (g :: h :: t)) with (g ++ COMMA :: join COMMA (h :: t)).
    now apply take_while_stop.
Qed.

Lemma hd_skipn (X : Type) (d : X) (n : nat) (l : list X) : hd d (skipn n l) = nth n l d.
Proof.
  revert l. induction n as [|n IH]; intros [|x l]; simpl; auto.
Qed.

Lemma Forall_skipn (X : Type) (P : X -> Prop) (n : nat) (l : list X) :
  Forall P l -> Forall P (skipn n l).
Proof.
  revert l. induction n as [|n IH]; intros l H; [exact H|].
  destruct l as [|x l]; [constructor|]. inversion H; subst. simpl. now apply IH.
Qed.

(** The pattern and the rule in the specification's words agree on every
    byte string. *)
Lemma PATTERN_DATA_first_fields (line : bytes) :
  re_match PATTERN_DATA line = first_fields (List.length HEADER) line.
Proof.
  unfold re_match, PATTERN_DATA, first_fields.
  fold FIELD. cbn [run]. rewrite run_rep_FIELD.
  set (n := List.length HEADER - 1).
  replace (List.length (fields line) <? List.length HEADER)
    with (negb (n <? List.length (fields line))).
  2:{ subst n. change (List.length HEADER) with 20.
      destruct (Nat.ltb_spec (20 - 1) (List.length (fields line)));
        destruct (Nat.ltb_spec (List.length (fields line)) 20); simpl; auto; lia. }
  destruct (n <? List.length (fields line)) eqn:Hn; [|reflexivity].
  cbn [flat_map fst snd negb]. rewrite app_nil_r.
  destruct (star_splits_head not_comma_cr_lf (join COMMA (skipn n (fields line))))
    as [t Ht].
  rewrite Ht. cbn [List.map fst snd]. f_equal.
  rewrite join_snoc. f_equal.
  rewrite take_while_join
    by (apply Forall_skipn, split_sep_free).
  now rewrite hd_skipn.
Qed.

(** ** Lines and the file object *)

Lemma take_line_nil (s : bytes) : take_line s = [] -> s = [].
Proof.
  destruct s as [|b s]; [reflexivity|]. simpl. destruct (Byte.eqb b LF); discriminate.
Qed.

Lemma take_drop_line (s : bytes) : take_line s ++ drop_line s = s.
Proof.
  unfold drop_line. induction s as [|b s IH]; [reflexivity|].
  simpl. destruct (Byte.eqb b LF); simpl; [reflexivity | now rewrite IH].
Qed.

Lemma take_line_length (s : bytes) : List.length (take_line s) <= List.length s.
Proof.
  induction s as [|b s IH]; simpl; [lia|].
  destruct (Byte.eqb b LF); simpl; lia.
Qed.

Lemma drop_line_length (s : bytes) :
  List.length (drop_line s) = List.length s - List.length (take_line s).
Proof. unfold drop_line. now rewrite length_skipn. Qed.

Lemma drop_line_shorter (s : bytes) :
  s <> [] -> List.length (drop_line s) < List.length s.
Proof.
  intros Hs. rewrite drop_line_length.
  destruct s as [|b s]; [congruence|]. simpl.
  destruct (Byte.eqb b LF); simpl; lia.
Qed.

Lemma split_lines_unfold (s : bytes) :
  s <> [] -> split_lines s = take_line s :: split_lines (drop_line s).
Proof.
  unfold drop_line. induction s as [|b s IH]; [congruence|]. intros _.
  simpl. destruct (Byte.eqb b LF); [reflexivity|].
  destruct s as [|c s]; [reflexivity|].
  rewrite IH by discriminate. reflexivity.
Qed.

Lemma concat_split_lines (s : bytes) : List.concat (split_lines s) = s.
Proof.
  induction s as [|b s IH]; [reflexivity|].
  simpl. destruct (Byte.eqb b LF); simpl; [now rewrite IH|].
  destruct (split_lines s) as [|l ls]; simpl in *; now rewrite <- IH.
Qed.

Lemma take_drop_while (X : Type) (p : X -> bool) (l : list X) :
  take_while p l ++ drop_while p l = l.
Proof.
  induction l as [|x l IH]; [reflexivity|].
  simpl. destruct (p x); simpl; [now rewrite IH | reflexivity].
Qed.


Lemma readline_remaining (f : file) :
  remaining (snd (readline f)) = drop_line (remaining f).
Proof.
  unfold readline, remaining, drop_line. simpl.
  rewrite Nat.add_comm. now rewrite skipn_skipn.
Qed.

Lemma remaining_length (f : file) :
  List.length (remaining f) = List.length (content f) - pos f.
Proof. unfold remaining. apply length_skipn. Qed.



Lemma skip_blank_S (fuel : nat) (f : file) :
  skip_blank (S fuel) f =
  let line := take_line (remaining f) in
  let f1 := mkfile (content f) (pos f + List.length line) in
  match rstrip line with
  | _ :: _ => inl (mkfile (content f) (pos f))
  | [] => match line with
          | [] => inr (Some f1)
          | _ => skip_blank fuel f1
          end
  end.
Proof. reflexivity. Qed.

Lemma data_loop_S (fuel : nat) (f : file) (sink : bytes) :
  data_loop (S fuel) f sink =
  let line := take_line (remaining f) in
  let f1 := mkfile (content f) (pos f + List.length line) in
  match line with
  | [] => mkrun f1 sink Returned
  | _ => match re_match PATTERN_DATA line with
         | None => mkrun f1 sink (Raised (InvalidDataError line))
         | Some g => data_loop fuel f1 ((sink ++ g) ++ [LF])
         end
  end.
Proof. reflexivity. Qed.

Lemma remaining_advance (f : file) :
  remaining (mkfile (content f) (pos f + List.length (take_line (remaining f))))
  = drop_line (remaining f).
Proof. exact (readline_remaining f). Qed.

(** The [while] loop stops, at the first line that is not blank or at the
    end of the file. *)
Lemma skip_blank_spec (fuel : nat) (f : file) :
  List.length (remaining f) < fuel ->
  pos f <= List.length (content f) ->
  skip_blank fuel f =
  match drop_while is_blank (split_lines (remaining f)) with
  | [] => inr (Some (mkfile (content f) (List.length (content f))))
  | d => inl (mkfile (content f) (List.length (content f) - List.length (List.concat d)))
  end.
Proof.
  revert f. induction fuel as [|fuel IH]; intros f Hfuel Hpos; [lia|].
  rewrite skip_blank_S. cbv zeta.
  pose proof (remaining_advance f) as Hrem.
  pose proof (remaining_length f) as Hlen.
  pose proof (take_line_length (remaining f)) as Hle.
  destruct (remaining f) as [|b s] eqn:Hs.
  - (* end of file *)
    simpl. simpl in Hlen. rewrite Nat.add_0_r.
    replace (pos f) with (List.length (content f)) by lia. reflexivity.
  - rewrite split_lines_unfold by discriminate.
    set (line := take_line (b :: s)) in *.
    cbn [drop_while]. unfold is_blank at 1.
    destruct (rstrip line) as [|c t] eqn:Hstrip.
    + destruct line as [|c l] eqn:El.
      * apply take_line_nil in El. discriminate.
      * rewrite IH.
        -- cbn [content]. rewrite Hrem. reflexivity.
        -- rewrite Hrem. pose proof (@drop_line_shorter (b :: s)) as Hsh.
           assert (Hne : b :: s <> []) by discriminate.
           specialize (Hsh Hne). lia.
        -- cbn [content pos]. lia.
    + f_equal. f_equal.
      change (List.concat (line :: split_lines (drop_line (b :: s))))
        with (line ++ List.concat (split_lines (drop_line (b :: s)))).
      rewrite concat_split_lines. subst line. rewrite take_drop_line. lia.
Qed.

(** The [for] loop stops as well, and does what [clean_loop] says. *)
Lemma data_loop_spec (fuel : nat) (f : file) (sink : bytes) :
  List.length (remaining f) < fuel ->
  data_loop fuel f sink =
  clean_loop (content f) (split_lines (remaining f)) (pos f) sink.
Proof.
  revert f sink. induction fuel as [|fuel IH]; intros f sink Hfuel; [lia|].
  rewrite data_loop_S. cbv zeta.
  pose proof (remaining_advance f) as Hrem.
  destruct (remaining f) as [|b s] eqn:Hs.
  - simpl. now rewrite Nat.add_0_r.
  - rewrite split_lines_unfold by discriminate.
    set (line := take_line (b :: s)) in *.
    destruct line as [|c l] eqn:El.
    { apply take_line_nil in El. discriminate. }
    cbn [clean_loop].
    destruct (re_match PATTERN_DATA (c :: l)) as [g|]; [|reflexivity].
    rewrite IH.
    + cbn [content pos]. now rewrite Hrem.
    + rewrite Hrem. pose proof (@drop_line_shorter (b :: s)) as Hsh.
      assert (Hne : b :: s <> []) by discriminate. specialize (Hsh Hne).
      lia.
Qed.

(** ** [read_green_taxi_csv] as a whole *)

Lemma strs_eqb_eq (a b : list str) : strs_eqb a b = true <-> a = b.
Proof.
  unfold strs_eqb. destruct (list_eq_dec _ a b); split; congruence.
Qed.

Lemma remaining_sopen (url : bytes) : remaining (sopen url) = url.
Proof. reflexivity. Qed.

(** A header line that is not the expected one ends the call at once. *)
Lemma read_header_bad (url sink : bytes) :
  header_fields (take_line url) <> Some HEADER ->
  read_green_taxi_csv url sink =
  mkrun (mkfile url (List.length (take_line url))) sink
        (Raised match decode (rstrip (take_line url)) with
                | Some _ => InvalidHeaderError (take_line url)
                | None => UnicodeDecodeError (rstrip (take_line url))
                end).
Proof.
  intros Hbad. unfold read_green_taxi_csv, read_green_taxi_csv_from, readline.
  rewrite remaining_sopen. cbn [sopen content pos Nat.add].
  unfold header_fields in *.
  destruct (decode (rstrip (take_line url))) as [u|]; cbn [option_map] in *;
    [|reflexivity].
  destruct (strs_eqb (split is_comma_cp u) HEADER) eqn:E; [|reflexivity].
  apply strs_eqb_eq in E. congruence.
Qed.

Lemma split_lines_suffix (p : bytes -> bool) (n : nat) (s : bytes) :
  List.length s <= n ->
  split_lines (List.concat (drop_while p (split_lines s)))
  = drop_while p (split_lines s).
Proof.
  revert s. induction n as [|n IH]; intros s Hn.
  - destruct s; [reflexivity | simpl in Hn; lia].
  - destruct s as [|b s]; [reflexivity|].
    rewrite (@split_lines_unfold (b :: s)) by discriminate. cbn [drop_while].
    destruct (p (take_line (b :: s))).
    + apply IH. pose proof (@drop_line_shorter (b :: s)) as Hsh.
      assert (Hne : b :: s <> []) by discriminate. specialize (Hsh Hne). lia.
    + rewrite <- (@split_lines_unfold (b :: s)) by discriminate.
      now rewrite concat_split_lines.
Qed.

Lemma data_lines_suffix (url : bytes) :
  exists blanks,
    Forall (fun l => is_blank l = true) blanks /\
    url = take_line url ++ List.concat blanks ++ List.concat (data_lines url).
Proof.
  exists (take_while is_blank (split_lines (drop_line url))). split.
  - induction (split_lines (drop_line url)) as [|l ls IH]; simpl; [constructor|].
    destruct (is_blank l) eqn:E; [constructor; assumption | constructor].
  - unfold data_lines. rewrite <- concat_app, take_drop_while, concat_split_lines.
    now rewrite take_drop_line.
Qed.

Lemma skipn_suffix (X : Type) (a b : list X) :
  skipn (List.length (a ++ b) - List.length b) (a ++ b) = b.
Proof.
  rewrite length_app. replace (List.length a + List.length b - List.length b)
    with (List.length a) by lia.
  rewrite skipn_app, skipn_all, Nat.sub_diag. reflexivity.
Qed.

(** With the expected header the call is the [for] loop over the data
    lines, started where the leading blank lines end. *)
Lemma read_header_ok (url sink : bytes) :
  header_ok url ->
  read_green_taxi_csv url sink =
  clean_loop url (data_lines url)
             (List.length url - List.length (List.concat (data_lines url))) sink.
Proof.
  intros Hok. unfold read_green_taxi_csv, read_green_taxi_csv_from, readline.
  rewrite remaining_sopen. cbn [sopen content pos Nat.add].
  unfold header_ok in Hok. rewrite Hok.
  assert (E : strs_eqb HEADER HEADER = true) by now apply strs_eqb_eq.
  rewrite E. cbn [negb].
  set (f1 := mkfile url (List.length (take_line url))).
  assert (Hrem : remaining f1 = drop_line url) by reflexivity.
  pose proof (take_line_length url) as Hle.
  rewrite skip_blank_spec.
  2:{ rewrite Hrem, drop_line_length. lia. }
  2:{ exact Hle. }
  rewrite Hrem. fold (data_lines url). cbn [content].
  destruct (data_lines url) as [|d ds] eqn:Hd.
  - simpl. now rewrite Nat.sub_0_r.
  - rewrite data_loop_spec; cbn [content pos].
    + f_equal. unfold remaining. subst f1. cbn [content pos].
      destruct (data_lines_suffix url) as (blanks & _ & Hurl).
      rewrite Hd in Hurl. rewrite app_assoc in Hurl.
      rewrite Hurl at 1 2. rewrite skipn_suffix.
      rewrite <- Hd. unfold data_lines.
      apply split_lines_suffix with (n := List.length (drop_line url)). lia.
    + unfold remaining. subst f1. cbn [content pos]. rewrite length_skipn. lia.
Qed.

(** The loop over lines that all hold enough fields. *)
Lemma re_match_enough (l : bytes) :
  enough_fields l ->
  exists g, re_match PATTERN_DATA l = Some g /\ cleaned l = g ++ [LF].
Proof.
  unfold enough_fields, cleaned. intros H. rewrite PATTERN_DATA_first_fields.
  unfold first_fields. change (List.length HEADER) with 20.
  destruct (Nat.ltb_spec (List.length (fields l)) 20); [lia|].
  eexists. split; reflexivity.
Qed.

Lemma re_match_short (l : bytes) :
  List.length (fields l) < 20 -> re_match PATTERN_DATA l = None.
Proof.
  intros H. rewrite PATTERN_DATA_first_fields.
  unfold first_fields. change (List.length HEADER) with 20.
  destruct (Nat.ltb_spec (List.length (fields l)) 20); [reflexivity | lia].
Qed.

Lemma clean_loop_good (data : bytes) (good rest : list bytes) (p : nat) (sink : bytes) :
  Forall enough_fields good ->
  clean_loop data (good ++ rest) p sink =
  clean_loop data rest (p + List.length (List.concat good))
             (sink ++ List.concat (List.map cleaned good)).
Proof.
  revert p sink. induction good as [|l good IH]; intros p sink Hall.
  - simpl. now rewrite Nat.add_0_r, app_nil_r.
  - inversion Hall as [|? ? Hl Hgood]; subst.
    destruct (re_match_enough Hl) as (g & Hg & Hc).
    cbn [app clean_loop]. rewrite Hg, IH by exact Hgood.
    cbn [List.map List.concat]. rewrite Hc, length_app.
    f_equal; [lia|]. now rewrite <- !app_assoc.
Qed.

(** ** The shape of lines and of cleaned lines *)

Lemma sep_free_app (X : Type) (q : X -> bool) (a b : list X) :
  sep_free q (a ++ b) <-> sep_free q a /\ sep_free q b.
Proof.
  unfold sep_free. rewrite forallb_app. apply andb_true_iff.
Qed.

Lemma split_lines_shape (s : bytes) : Forall line_shape (split_lines s).
Proof.
  induction s as [|b s IH]; simpl; [constructor|].
  destruct (Byte.eqb b LF) eqn:Hb.
  - constructor; [|exact IH]. exists []. split; [reflexivity|].
    left. apply Byte.byte_dec_bl in Hb. now subst.
  - destruct (split_lines s) as [|l ls].
    + constructor; [|constructor]. exists [b]. split.
      * unfold sep_free, is_lf. simpl. now rewrite Hb.
      * right. split; [reflexivity | discriminate].
    + inversion IH as [|? ? (x & Hx & Hl) Hls]; subst.
      constructor; [|exact Hls]. exists (b :: x). split.
      * unfold sep_free, is_lf in *. simpl. now rewrite Hb.
      * destruct Hl as [-> | [-> _]]; [left | right]; [reflexivity|].
        split; [reflexivity | discriminate].
Qed.

Lemma Forall_drop_while (X : Type) (P : X -> Prop) (q : X -> bool) (l : list X) :
  Forall P l -> Forall P (drop_while q l).
Proof.
  induction 1 as [|x l Hx Hl IH]; simpl; [constructor|].
  destruct (q x); [exact IH | now constructor].
Qed.

Lemma data_lines_shape (url : bytes) : Forall line_shape (data_lines url).
Proof. apply Forall_drop_while, split_lines_shape. Qed.

Lemma split_lines_lf (g rest : bytes) :
  lf_free g -> split_lines (g ++ LF :: rest) = (g ++ [LF]) :: split_lines rest.
Proof.
  unfold sep_free, is_lf. induction g as [|b g IH]; intros H; [reflexivity|].
  simpl in H. apply andb_prop in H as [Hb Hg]. apply negb_true_iff in Hb.
  simpl. rewrite Hb, (IH Hg). reflexivity.
Qed.

Lemma split_lines_concat (gs : list bytes) :
  Forall lf_free gs ->
  split_lines (List.concat (List.map (fun g => g ++ [LF]) gs))
  = List.map (fun g => g ++ [LF]) gs.
Proof.
  induction 1 as [|g gs Hg Hgs IH]; [reflexivity|].
  simpl. rewrite <- app_assoc. simpl. now rewrite split_lines_lf, IH.
Qed.

Lemma take_line_lf (g rest : bytes) :
  lf_free g -> take_line (g ++ LF :: rest) = g ++ [LF].
Proof.
  unfold sep_free, is_lf. induction g as [|b g IH]; intros H; [reflexivity|].
  simpl in H. apply andb_prop in H as [Hb Hg]. apply negb_true_iff in Hb.
  simpl. rewrite Hb, (IH Hg). reflexivity.
Qed.

(** A prefix of a line either is the whole line or holds no line feed. *)
Lemma prefix_lf_free (x g r : bytes) :
  lf_free x -> x ++ [LF] = g ++ r -> (g = x ++ [LF] /\ r = []) \/ lf_free g.
Proof.
  unfold sep_free, is_lf. revert g. induction x as [|b x IH]; intros g Hx E.
  - destruct g as [|c g]; [now right|]. left.
    simpl in E. injection E as -> E. destruct g; [|discriminate].
    simpl in E. now subst.
  - destruct g as [|c g]; [now right|].
    simpl in E. injection E as <- E.
    simpl in Hx. apply andb_prop in Hx as [Hb Hx].
    destruct (IH g Hx E) as [[-> ->] | Hg]; [now left | right].
    simpl. now rewrite Hb.
Qed.

Lemma take_while_all (X : Type) (q : X -> bool) (l : list X) :
  forallb q (take_while q l) = true.
Proof.
  induction l as [|x l IH]; [reflexivity|]. simpl.
  destruct (q x) eqn:E; [simpl; now rewrite E | reflexivity].
Qed.


Lemma stop_at_eol_comma_free (f : bytes) : comma_free f -> comma_free (stop_at_eol f).
Proof.
  unfold stop_at_eol, sep_free. induction f as [|b f IH]; intros H; [reflexivity|].
  simpl in H. apply andb_prop in H as [Hb Hf]. simpl.
  destruct (not_cr_lf b); [|reflexivity]. simpl. now rewrite Hb, IH.
Qed.

Lemma stop_at_eol_lf_free (f : bytes) : lf_free (stop_at_eol f).
Proof.
  unfold stop_at_eol, sep_free, is_lf. induction f as [|b f IH]; [reflexivity|].
  simpl. destruct (not_cr_lf b) eqn:E; [|reflexivity].
  simpl. rewrite IH. unfold not_cr_lf in E.
  apply negb_true_iff, orb_false_iff in E as [_ E]. now rewrite E.
Qed.

Lemma Forall_firstn (X : Type) (P : X -> Prop) (n : nat) (l : list X) :
  Forall P l -> Forall P (firstn n l).
Proof.
  revert l. induction n as [|n IH]; intros l H; [constructor|].
  destruct l as [|x l]; [constructor|]. inversion H; subst.
  simpl. constructor; auto.
Qed.


Lemma kept_comma_free (l : bytes) : Forall comma_free (kept l).
Proof.
  unfold kept. apply Forall_app. split.
  - apply Forall_firstn, split_sep_free.
  - constructor; [|constructor]. apply stop_at_eol_comma_free.
    destruct (Nat.lt_ge_cases 19 (List.length (fields l))) as [Hlt | Hge].
    + pose proof (split_sep_free is_comma l) as Hall.
      rewrite Forall_forall in Hall. apply Hall. now apply nth_In.
    + rewrite nth_overflow by exact Hge. reflexivity.
Qed.

Lemma first_fields_kept (l : bytes) :
  enough_fields l -> first_fields 20 l = Some (join COMMA (kept l)).
Proof.
  unfold enough_fields, first_fields. intros H.
  destruct (Nat.ltb_spec (List.length (fields l)) 20); [lia | reflexivity].
Qed.

Lemma cleaned_kept (l : bytes) :
  enough_fields l -> cleaned l = join COMMA (kept l) ++ [LF].
Proof.
  intros H. unfold cleaned. change (List.length HEADER) with 20.
  now rewrite first_fields_kept.
Qed.

Lemma concat_map_snoc (X : Type) (c : X) (ps : list (list X)) (f : list X) :
  List.concat (List.map (fun p => p ++ [c]) (ps ++ [f]))
  = (List.concat (List.map (fun p => p ++ [c]) ps) ++ f) ++ [c].
Proof.
  rewrite List.map_app, concat_app. simpl.
  now rewrite app_nil_r, app_assoc.
Qed.

Lemma is_lf_comma_free (x : bytes) : comma_free x -> comma_free (x ++ [LF]).
Proof.
  intros H. apply sep_free_app. split; [exact H | reflexivity].
Qed.

(** A line cut after its first 19 commas. *)
Lemma line_cut (l : bytes) :
  enough_fields l ->
  exists y rest,
    List.concat (List.map (fun f => f ++ [COMMA]) (firstn 19 (fields l))) = y ++ [COMMA]
    /\ l = (y ++ [COMMA]) ++ rest.
Proof.
  unfold enough_fields. intros H.
  assert (Hlen : List.length (firstn 19 (fields l)) = 19)
    by (rewrite length_firstn; lia).
  assert (Hne : firstn 19 (fields l) <> [])
    by (intros E; rewrite E in Hlen; discriminate).
  destruct (exists_last Hne) as (fs & f & E).
  rewrite E, concat_map_snoc.
  eexists. exists (join COMMA (skipn 19 (fields l))). split; [reflexivity|].
  rewrite <- concat_map_snoc, <- E.
  rewrite <- (join_fields l) at 1.
  apply join_skipn. lia.
Qed.

Lemma join_kept_lf_free (l : bytes) :
  line_shape l -> enough_fields l -> lf_free (join COMMA (kept l)).
Proof.
  intros (x & Hx & Hl) Hen. unfold kept. rewrite join_snoc.
  apply sep_free_app. split; [|apply stop_at_eol_lf_free].
  destruct (line_cut Hen) as (y & rest & Hy & Hcut). rewrite Hy.
  destruct Hl as [Hl | [Hl _]].
  - rewrite Hl in Hcut. destruct (prefix_lf_free _ _ Hx Hcut) as [[E _] | Hfree];
      [|exact Hfree].
    apply app_inj_tail in E as [_ E]. discriminate.
  - subst x. rewrite Hcut in Hx. now apply sep_free_app in Hx.
Qed.

Lemma cleaned_lines_split (ls : list bytes) :
  Forall line_shape ls -> Forall enough_fields ls ->
  split_lines (List.concat (List.map cleaned ls)) = List.map cleaned ls.
Proof.
  intros Hshape Hen.
  assert (E : List.map cleaned ls
              = List.map (fun g => g ++ [LF]) (List.map (fun l => join COMMA (kept l)) ls)).
  { rewrite List.map_map. apply map_ext_Forall.
    revert Hen. apply Forall_impl. intros l Hl. now apply cleaned_kept. }
  rewrite E. apply split_lines_concat.
  rewrite Forall_map. rewrite Forall_forall in *. intros l Hl.
  apply join_kept_lf_free; auto.
Qed.

(** Twenty comma-free pieces, the last free of CR and LF, joined and
    terminated: the fields of such a line. *)
Lemma fields_terminated (ps : list bytes) (x : bytes) :
  Forall comma_free ps -> comma_free x ->
  fields (join COMMA (ps ++ [x]) ++ [LF]) = ps ++ [x ++ [LF]].
Proof.
  intros Hps Hx. unfold fields.
  replace (join COMMA (ps ++ [x]) ++ [LF]) with (join COMMA (ps ++ [x ++ [LF]]))
    by (rewrite !join_snoc; now rewrite app_assoc).
  apply split_join; [reflexivity | now destruct ps |].
  apply Forall_app. split; [exact Hps|].
  constructor; [|constructor]. now apply is_lf_comma_free.
Qed.

Lemma take_while_app_stop (X : Type) (q : X -> bool) (x : list X) (c : X) :
  forallb q x = true -> q c = false -> take_while q (x ++ [c]) = x.
Proof.
  intros Hx Hc. induction x as [|b x IH]; simpl in *; [now rewrite Hc|].
  apply andb_prop in Hx as [Hb Hx]. now rewrite Hb, IH.
Qed.

(** The extraction maps a line of that form to itself. *)
Lemma first_fields_terminated (ps : list bytes) (x : bytes) :
  List.length ps = 19 -> Forall comma_free ps -> comma_free x ->
  forallb not_cr_lf x = true ->
  first_fields 20 (join COMMA (ps ++ [x]) ++ [LF]) = Some (join COMMA (ps ++ [x])).
Proof.
  intros Hlen Hps Hx Heol. unfold first_fields.
  rewrite fields_terminated by assumption.
  rewrite length_app, Hlen. cbn [List.length Nat.add Nat.ltb Nat.leb Nat.sub].
  rewrite firstn_app, Hlen, Nat.sub_diag, firstn_O, app_nil_r.
  rewrite <- Hlen at 1. rewrite firstn_all.
  rewrite app_nth2 by lia. rewrite Hlen, Nat.sub_diag. cbn [nth].
  unfold stop_at_eol. now rewrite take_while_app_stop.
Qed.

Lemma kept_split (l : bytes) :
  enough_fields l ->
  List.length (firstn 19 (fields l)) = 19
  /\ Forall comma_free (firstn 19 (fields l))
  /\ comma_free (stop_at_eol (nth 19 (fields l) []))
  /\ forallb not_cr_lf (stop_at_eol (nth 19 (fields l) [])) = true.
Proof.
  intros Hen. pose proof (kept_comma_free l) as Hk. unfold kept in Hk.
  apply Forall_app in Hk as [Hps Hx]. inversion Hx; subst.
  repeat split; auto.
  - unfold enough_fields in Hen. rewrite length_firstn. lia.
  - apply take_while_all.
Qed.

Lemma fields_cleaned (l : bytes) :
  enough_fields l ->
  fields (cleaned l)
  = firstn 19 (fields l) ++ [stop_at_eol (nth 19 (fields l) []) ++ [LF]].
Proof.
  intros Hen. rewrite cleaned_kept by exact Hen.
  destruct (kept_split Hen) as (_ & Hps & Hx & _).
  unfold kept. now apply fields_terminated.
Qed.

Lemma cleaned_enough (l : bytes) : enough_fields l -> enough_fields (cleaned l).
Proof.
  intros Hen. unfold enough_fields. rewrite fields_cleaned by exact Hen.
  destruct (kept_split Hen) as (Hlen & _). rewrite length_app, Hlen. simpl. lia.
Qed.

Lemma cleaned_idempotent (l : bytes) :
  enough_fields l -> cleaned (cleaned l) = cleaned l.
Proof.
  intros Hen. unfold cleaned at 1. change (List.length HEADER) with 20.
  rewrite (cleaned_kept Hen) at 1.
  destruct (kept_split Hen) as (Hlen & Hps & Hx & Heol).
  unfold kept. rewrite first_fields_terminated by assumption.
  now rewrite cleaned_kept.
Qed.

(** Whitespace-only lines hold no comma, lines with a comma are not blank. *)
Lemma is_space_not_comma (b : byte) : is_space b = true -> is_comma b = false.
Proof. destruct b; simpl; intros H; try reflexivity; discriminate. Qed.

Lemma rstrip_nil (l : bytes) : rstrip l = [] -> forallb is_space l = true.
Proof.
  induction l as [|b l IH]; [reflexivity|]. simpl.
  destruct (rstrip l) as [|c t]; [|discriminate].
  destruct (is_space b); [intros _; now apply IH | discriminate].
Qed.

Lemma blank_fields (l : bytes) : is_blank l = true -> fields l = [l].
Proof.
  unfold is_blank. intros H.
  destruct (rstrip l) eqn:E; [|discriminate].
  apply rstrip_nil in E. apply split_sep_free_one.
  unfold sep_free. rewrite forallb_forall in *. intros b Hb.
  now rewrite (is_space_not_comma _ (E b Hb)).
Qed.

Lemma blank_no_match (l : bytes) : is_blank l = true -> re_match PATTERN_DATA l = None.
Proof.
  intros H. apply re_match_short. rewrite blank_fields by exact H. simpl. lia.
Qed.

Lemma enough_not_blank (l : bytes) : enough_fields l -> is_blank l = false.
Proof.
  unfold enough_fields. intros H. destruct (is_blank l) eqn:E; [|reflexivity].
  rewrite blank_fields in H by exact E. simpl in H. lia.
Qed.

(** ** The normalizer on a stream with the expected header *)

Lemma data_lines_length (url : bytes) :
  List.length (List.concat (data_lines url)) <= List.length url.
Proof.
  destruct (data_lines_suffix url) as (blanks & _ & E).
  rewrite E at 2. rewrite !length_app. lia.
Qed.

(** Every data line up to [rest] holds enough fields: the call has written
    their cleaned forms and goes on with [rest]. *)
Lemma read_prefix (url sink : bytes) (good rest : list bytes) :
  header_ok url ->
  data_lines url = good ++ rest ->
  Forall enough_fields good ->
  read_green_taxi_csv url sink =
  clean_loop url rest (List.length url - List.length (List.concat rest))
             (sink ++ List.concat (List.map cleaned good)).
Proof.
  intros Hok Hd Hgood. rewrite read_header_ok by exact Hok.
  pose proof (data_lines_length url) as Hlen.
  rewrite Hd in *. rewrite clean_loop_good by exact Hgood.
  f_equal. rewrite concat_app, length_app in *. lia.
Qed.

Lemma read_all_good (url sink : bytes) :
  header_ok url ->
  Forall enough_fields (data_lines url) ->
  read_green_taxi_csv url sink =
  mkrun (mkfile url (List.length url))
        (sink ++ List.concat (List.map cleaned (data_lines url))) Returned.
Proof.
  intros Hok Hgood.
  rewrite (@read_prefix url sink (data_lines url) []);
    [| exact Hok | now rewrite app_nil_r | exact Hgood].
  simpl. now rewrite Nat.sub_0_r.
Qed.

Lemma read_first_bad (url sink : bytes) (good : list bytes) (bad : bytes)
      (rest : list bytes) :
  header_ok url ->
  data_lines url = good ++ bad :: rest ->
  Forall enough_fields good ->
  List.length (fields bad) < 20 ->
  read_green_taxi_csv url sink =
  mkrun (mkfile url (List.length url - List.length (List.concat rest)))
        (sink ++ List.concat (List.map cleaned good))
        (Raised (InvalidDataError bad)).
Proof.
  intros Hok Hd Hgood Hbad.
  rewrite (@read_prefix url sink good (bad :: rest) Hok Hd Hgood).
  cbn [clean_loop]. rewrite (@re_match_short bad Hbad).
  f_equal. f_equal.
  pose proof (data_lines_length url) as Hlen. rewrite Hd in Hlen.
  rewrite concat_app, length_app in Hlen.
  change (List.concat (bad :: rest)) with (bad ++ List.concat rest) in *.
  rewrite length_app in *. lia.
Qed.

Lemma remaining_tail (url : bytes) (rest : list bytes) (pre : bytes) :
  url = pre ++ List.concat rest ->
  remaining (mkfile url (List.length url - List.length (List.concat rest)))
  = List.concat rest.
Proof.
  intros E. unfold remaining. cbn [content pos]. rewrite E at 1 2.
  apply skipn_suffix.
Qed.

Lemma data_lines_tail (url : bytes) (front rest : list bytes) :
  data_lines url = front ++ rest ->
  exists pre, url = pre ++ List.concat rest.
Proof.
  intros Hd. destruct (data_lines_suffix url) as (blanks & _ & E).
  rewrite Hd, concat_app in E.
  exists (take_line url ++ List.concat blanks ++ List.concat front).
  rewrite E at 1. now rewrite <- !app_assoc.
Qed.

(** C1.  After a valid header, the sink receives, for every data line in
    input order, exactly the line's first 20 comma-separated fields (the
    20th cut at the first CR or LF) joined by their commas and followed by
    one newline: one cleaned line, of exactly 20 fields, per data line, none
    of which is blank.  [good] is any run of data lines that hold 20 fields
    or more, [rest] what follows it: nothing or a line that is too short. *)
Theorem normalization_writes_leading_fields
        (url sink : bytes) (good rest : list bytes) :
  header_ok url ->
  data_lines url = good ++ rest ->
  Forall enough_fields good ->
  match rest with [] => True | bad :: _ => List.length (fields bad) < 20 end ->
  let r := read_green_taxi_csv url sink in
  fobj r = sink ++ List.concat (List.map cleaned good)
  /\ split_lines (List.concat (List.map cleaned good)) = List.map cleaned good
  /\ List.length (List.map cleaned good) = List.length good
  /\ Forall (fun l =>
               is_blank l = false
               /\ re_match PATTERN_DATA l
                  = Some (join COMMA (firstn 19 (fields l)
                                      ++ [stop_at_eol (nth 19 (fields l) [])]))
               /\ cleaned l
                  = join COMMA (firstn 19 (fields l)
                                ++ [stop_at_eol (nth 19 (fields l) [])]) ++ [LF]
               /\ List.length (fields (cleaned l)) = 20) good
  /\ (rest = [] -> result r = Returned).
Proof.
  intros Hok Hd Hgood Hrest r.
  assert (Hshape : Forall line_shape good).
  { pose proof (data_lines_shape url) as Hs. rewrite Hd in Hs.
    now apply Forall_app in Hs. }
  repeat split.
  - subst r. destruct rest as [|bad rest].
    + rewrite app_nil_r in Hd. rewrite read_all_good; rewrite ?Hd; auto.
    + now rewrite (@read_first_bad url sink good bad rest Hok Hd Hgood Hrest).
  - now apply cleaned_lines_split.
  - apply length_map.
  - revert Hgood. apply Forall_impl. intros l Hl. repeat split.
    + now apply enough_not_blank.
    + rewrite PATTERN_DATA_first_fields. now apply first_fields_kept.
    + now apply cleaned_kept.
    + rewrite fields_cleaned by exact Hl.
      destruct (kept_split Hl) as (Hlen & _).
      rewrite length_app, Hlen. reflexivity.
  - intros ->. subst r. rewrite app_nil_r in Hd.
    rewrite read_all_good; rewrite ?Hd; auto.
Qed.

Lemma sample_url_header_ok : header_ok sample_url.
Proof. vm_compute. reflexivity. Defined.

Lemma sample_row_enough : enough_fields sample_row.
Proof. unfold enough_fields. vm_compute. repeat constructor. Defined.

Lemma normalization_writes_leading_fields_witness :
  fobj (read_green_taxi_csv sample_url [])
  = [] ++ List.concat (List.map cleaned [sample_row; sample_row]).
Proof.
  refine (proj1 (@normalization_writes_leading_fields
                   sample_url [] [sample_row; sample_row] [] _ _ _ _)).
  - exact sample_url_header_ok.
  - vm_compute. reflexivity.
  - constructor; [exact sample_row_enough|].
    constructor; [exact sample_row_enough | constructor].
  - exact I.
Defined.

(** C3.  A data line with fewer than 20 fields, reached after lines that
    hold enough of them, ends the call with [InvalidDataError] carrying that
    line; nothing is written for it or after it, the lines behind it stay
    unread, and [main] fails without a table. *)
Theorem short_line_raises_InvalidData
        (url sink : bytes) (good : list bytes) (bad : bytes) (rest : list bytes) :
  header_ok url ->
  data_lines url = good ++ bad :: rest ->
  Forall enough_fields good ->
  List.length (fields bad) < 20 ->
  let r := read_green_taxi_csv url sink in
  result r = Raised (InvalidDataError bad)
  /\ fobj r = sink ++ List.concat (List.map cleaned good)
  /\ remaining (fobj_src r) = List.concat rest
  /\ forall strptime, main strptime url = Failed (InvalidDataError bad).
Proof.
  intros Hok Hd Hgood Hbad r. subst r.
  rewrite (@read_first_bad url sink good bad rest Hok Hd Hgood Hbad).
  cbn [result fobj fobj_src].
  repeat split.
  - destruct (@data_lines_tail url (good ++ [bad]) rest) as (pre & E).
    { now rewrite <- app_assoc. }
    now apply (@remaining_tail url rest pre).
  - intros strptime. unfold main.
    now rewrite (@read_first_bad url [] good bad rest Hok Hd Hgood Hbad).
Qed.

Lemma short_line_raises_InvalidData_witness :
  List.length (fields short_row) = 18
  /\ result (read_green_taxi_csv short_url []) = Raised (InvalidDataError short_row)
  /\ forall strptime, main strptime short_url = Failed (InvalidDataError short_row).
Proof.
  split; [vm_compute; reflexivity|].
  assert (H : header_ok short_url) by (vm_compute; reflexivity).
  assert (Hd : data_lines short_url = [sample_row] ++ short_row :: [sample_row])
    by (vm_compute; reflexivity).
  assert (Hg : Forall enough_fields [sample_row])
    by (constructor; [exact sample_row_enough | constructor]).
  assert (Hb : List.length (fields short_row) < 20)
    by (vm_compute; repeat constructor).
  pose proof (@short_line_raises_InvalidData short_url [] _ _ _ H Hd Hg Hb) as T.
  cbv zeta in T. destruct T as (T1 & _ & _ & T4). split; [exact T1 | exact T4].
Defined.

(** C9.  Blank lines are skipped only before the first data line.  A
    whitespace-only line among the data lines is never the first of them,
    cannot match the pattern, and ends the call with [InvalidDataError]
    carrying it. *)
Theorem blank_line_in_data_raises_InvalidData
        (url sink : bytes) (good : list bytes) (blank : bytes) (rest : list bytes) :
  header_ok url ->
  data_lines url = good ++ blank :: rest ->
  Forall enough_fields good ->
  is_blank blank = true ->
  let r := read_green_taxi_csv url sink in
  good <> []
  /\ re_match PATTERN_DATA blank = None
  /\ result r = Raised (InvalidDataError blank)
  /\ fobj r = sink ++ List.concat (List.map cleaned good)
  /\ exists skipped,
       split_lines (drop_line url) = skipped ++ good ++ blank :: rest
       /\ Forall (fun l => is_blank l = true) skipped.
Proof.
  intros Hok Hd Hgood Hblank r.
  assert (Hshort : List.length (fields blank) < 20)
    by (rewrite blank_fields by exact Hblank; simpl; lia).
  subst r. rewrite (@read_first_bad url sink good blank rest Hok Hd Hgood Hshort).
  cbn [result fobj]. repeat split.
  - intros ->. simpl in Hd. unfold data_lines in Hd.
    induction (split_lines (drop_line url)) as [|l ls IH]; [discriminate|].
    simpl in Hd. destruct (is_blank l) eqn:E; [now apply IH|].
    injection Hd as -> _. congruence.
  - now apply blank_no_match.
  - exists (take_while is_blank (split_lines (drop_line url))). split.
    + rewrite <- Hd. unfold data_lines. now rewrite take_drop_while.
    + induction (split_lines (drop_line url)) as [|l ls IH]; simpl; [constructor|].
      destruct (is_blank l) eqn:E; constructor; assumption.
Qed.

Lemma blank_line_in_data_raises_InvalidData_witness :
  result (read_green_taxi_csv blank_url []) = Raised (InvalidDataError blank_row)
  /\ fobj (read_green_taxi_csv blank_url []) = [] ++ List.concat (List.map cleaned [sample_row]).
Proof.
  assert (H : header_ok blank_url) by (vm_compute; reflexivity).
  assert (Hd : data_lines blank_url = [sample_row] ++ blank_row :: [sample_row])
    by (vm_compute; reflexivity).
  assert (Hg : Forall enough_fields [sample_row])
    by (constructor; [exact sample_row_enough | constructor]).
  assert (Hb : is_blank blank_row = true) by (vm_compute; reflexivity).
  pose proof (@blank_line_in_data_raises_InvalidData blank_url [] _ _ _ H Hd Hg Hb) as T.
  cbv zeta in T. destruct T as (_ & _ & T3 & T4 & _). split; [exact T3 | exact T4].
Defined.

(** ** The header check *)

(** C2, as the code has it.  When the first line, stripped of trailing
    whitespace, decodes as UTF-8 and its fields differ from the expected
    header in any way, the call fails with [InvalidHeaderError] carrying
    the raw first line, leaves the source just behind that line and writes
    nothing. *)
Theorem wrong_header_raises_InvalidHeader (url sink : bytes) (u : str) :
  decode (rstrip (take_line url)) = Some u ->
  split is_comma_cp u <> HEADER ->
  let r := read_green_taxi_csv url sink in
  result r = Raised (InvalidHeaderError (take_line url))
  /\ fobj r = sink
  /\ fobj_src r = mkfile url (List.length (take_line url))
  /\ remaining (fobj_src r) = drop_line url.
Proof.
  intros Hdec Hne r. subst r. rewrite read_header_bad.
  - rewrite Hdec. repeat split.
  - unfold header_fields. rewrite Hdec. simpl. congruence.
Qed.

Lemma wrong_header_raises_InvalidHeader_witness :
  result (read_green_taxi_csv schema_header_url [])
  = Raised (InvalidHeaderError schema_header_line)
  /\ fobj (read_green_taxi_csv schema_header_url []) = []
  /\ remaining (fobj_src (read_green_taxi_csv schema_header_url [])) = sample_row.
Proof.
  assert (Hdec : decode (rstrip (take_line schema_header_url))
                 = Some (List.map (fun b => Byte.to_N b) (rstrip schema_header_line)))
    by (vm_compute; reflexivity).
  assert (Hne : split is_comma_cp
                      (List.map (fun b => Byte.to_N b) (rstrip schema_header_line))
                <> HEADER) by (vm_compute; discriminate).
  pose proof (@wrong_header_raises_InvalidHeader schema_header_url [] _ Hdec Hne) as T.
  cbv zeta in T. destruct T as (T1 & T2 & _ & T4).
  split; [exact T1 | split; [exact T2 | exact T4]].
Defined.

(** A first line that is not UTF-8 differs from the header too, but the
    exception is the decoder's. *)
Lemma undecodable_header_raises_UnicodeDecodeError (url sink : bytes) :
  decode (rstrip (take_line url)) = None ->
  read_green_taxi_csv url sink =
  mkrun (mkfile url (List.length (take_line url))) sink
        (Raised (UnicodeDecodeError (rstrip (take_line url)))).
Proof.
  intros Hdec. rewrite read_header_bad.
  - now rewrite Hdec.
  - unfold header_fields. rewrite Hdec. discriminate.
Qed.

(** C2 as stated fails: the first line of [not_utf8_url] differs from the
    header, and the call does not end with [InvalidHeaderError]. *)
Lemma wrong_header_counterexample :
  header_fields (take_line not_utf8_url) <> Some HEADER
  /\ result (read_green_taxi_csv not_utf8_url []) = Raised (UnicodeDecodeError [xff])
  /\ result (read_green_taxi_csv not_utf8_url [])
     <> Raised (InvalidHeaderError (take_line not_utf8_url)).
Proof.
  split; [vm_compute; discriminate|].
  split; [vm_compute; reflexivity | vm_compute; discriminate].
Qed.

(** ** Normalizing cleaned lines again *)

Lemma drop_line_lf (h rest : bytes) :
  lf_free h -> drop_line ((h ++ [LF]) ++ rest) = rest.
Proof.
  intros Hh. unfold drop_line. rewrite <- app_assoc. cbn [app].
  rewrite take_line_lf by exact Hh.
  replace (h ++ LF :: rest) with ((h ++ [LF]) ++ rest)
    by (now rewrite <- app_assoc).
  rewrite skipn_app, skipn_all, Nat.sub_diag. reflexivity.
Qed.

Lemma drop_while_head (X : Type) (q : X -> bool) (l : list X) :
  match l with [] => True | x :: _ => q x = false end -> drop_while q l = l.
Proof.
  destruct l as [|x l]; [reflexivity|]. simpl. now intros ->.
Qed.

Lemma data_lines_of_cleaned (h : bytes) (ls : list bytes) :
  lf_free h -> Forall line_shape ls -> Forall enough_fields ls ->
  data_lines ((h ++ [LF]) ++ List.concat (List.map cleaned ls)) = List.map cleaned ls.
Proof.
  intros Hh Hshape Hen. unfold data_lines.
  rewrite drop_line_lf by exact Hh.
  rewrite cleaned_lines_split by assumption.
  apply drop_while_head. destruct ls as [|l ls]; [exact I|].
  inversion Hen; subst. cbn [List.map].
  now apply enough_not_blank, cleaned_enough.
Qed.

Lemma header_ok_dec (url : bytes) :
  {header_ok url} + {header_fields (take_line url) <> Some HEADER}.
Proof.
  unfold header_ok. destruct (header_fields (take_line url)) as [u|].
  - destruct (list_eq_dec (list_eq_dec N.eq_dec) u HEADER) as [->|Hne].
    + now left.
    + right. congruence.
  - right. discriminate.
Qed.

(** The output of a run read as a source: its first cleaned line stands
    where the header is looked for, the others are the data lines. *)
Lemma bare_output_lines (d : bytes) (ds : list bytes) :
  line_shape d -> enough_fields d ->
  Forall line_shape ds -> Forall enough_fields ds ->
  take_line (List.concat (List.map cleaned (d :: ds))) = cleaned d
  /\ data_lines (List.concat (List.map cleaned (d :: ds))) = List.map cleaned ds.
Proof.
  intros Hd He Hds Hes. cbn [List.map List.concat].
  rewrite (cleaned_kept He).
  pose proof (join_kept_lf_free Hd He) as Hfree. split.
  - rewrite <- app_assoc. cbn [app]. now apply take_line_lf.
  - now apply data_lines_of_cleaned.
Qed.

(** C6, as the code has it.  The extraction maps every line made of 20
    comma-free fields, the last without CR or LF, and one closing newline
    to itself; so normalizing the expected header line followed by the
    output of a successful run writes that output again.  The output
    itself carries no header line: normalizing it, the first cleaned line
    is taken for the header, and either the header check fails and nothing
    is written, or that line reads as the header and the lines behind it
    are written; an output that is not empty is never written again as it
    is. *)
Theorem extraction_is_idempotent_on_cleaned_lines :
  (forall (ps : list bytes) (x : bytes),
      List.length ps = 19 -> Forall comma_free ps -> comma_free x ->
      forallb not_cr_lf x = true ->
      let line := join COMMA (ps ++ [x]) ++ [LF] in
      re_match PATTERN_DATA line = Some (join COMMA (ps ++ [x]))
      /\ cleaned line = line)
  /\ (forall (url h : bytes),
         header_ok url -> Forall enough_fields (data_lines url) ->
         lf_free h -> header_fields (h ++ [LF]) = Some HEADER ->
         let out := fobj (read_green_taxi_csv url []) in
         let r := read_green_taxi_csv ((h ++ [LF]) ++ out) [] in
         result r = Returned /\ fobj r = out)
  /\ (forall url : bytes,
         header_ok url -> Forall enough_fields (data_lines url) ->
         let out := fobj (read_green_taxi_csv url []) in
         let r := read_green_taxi_csv out [] in
         out <> [] ->
         fobj r <> out
         /\ ((header_fields (take_line out) <> Some HEADER
              /\ fobj r = []
              /\ result r
                 = Raised match decode (rstrip (take_line out)) with
                          | Some _ => InvalidHeaderError (take_line out)
                          | None => UnicodeDecodeError (rstrip (take_line out))
                          end)
             \/ (header_ok out
                 /\ result r = Returned
                 /\ take_line out ++ fobj r = out))).
Proof.
  split; [|split].
  - intros ps x Hlen Hps Hx Heol line. subst line.
    rewrite PATTERN_DATA_first_fields. unfold cleaned.
    change (List.length HEADER) with 20.
    rewrite first_fields_terminated by assumption. now split.
  - intros url h Hok Hen Hh Hhdr out r.
    pose proof (data_lines_shape url) as Hshape.
    assert (Hout : out = List.concat (List.map cleaned (data_lines url))).
    { subst out. now rewrite read_all_good. }
    assert (Hok2 : header_ok ((h ++ [LF]) ++ out)).
    { unfold header_ok. rewrite <- app_assoc. cbn [app].
      now rewrite take_line_lf. }
    assert (Hd2 : data_lines ((h ++ [LF]) ++ out) = List.map cleaned (data_lines url)).
    { rewrite Hout. now apply data_lines_of_cleaned. }
    subst r. rewrite read_all_good; [| exact Hok2 |].
    + cbn [result fobj app]. split; [reflexivity|].
      rewrite Hd2, List.map_map, Hout. f_equal.
      apply map_ext_Forall. revert Hen. apply Forall_impl.
      intros l Hl. now apply cleaned_idempotent.
    + rewrite Hd2. apply Forall_map. revert Hen. apply Forall_impl.
      intros l Hl. now apply cleaned_enough.
  - intros url Hok Hen out r Hne.
    pose proof (data_lines_shape url) as Hshape.
    assert (Hout : out = List.concat (List.map cleaned (data_lines url))).
    { subst out. now rewrite read_all_good. }
    destruct (data_lines url) as [|d ds]; [now elim Hne|].
    inversion Hshape as [|? ? Hd Hds]; subst.
    inversion Hen as [|? ? He Hes]; subst.
    destruct (bare_output_lines Hd He Hds Hes) as [Htake Hdata].
    rewrite <- Hout in Htake, Hdata.
    destruct (header_ok_dec out) as [Hok2 | Hbad].
    + assert (Hen2 : Forall enough_fields (data_lines out)).
      { rewrite Hdata. apply Forall_map. revert Hes. apply Forall_impl.
        intros l Hl. now apply cleaned_enough. }
      assert (Hr : fobj r = List.concat (List.map cleaned ds)).
      { subst r. rewrite read_all_good by assumption. cbn [fobj app].
        rewrite Hdata, List.map_map. f_equal.
        apply map_ext_Forall. revert Hes. apply Forall_impl.
        intros l Hl. now apply cleaned_idempotent. }
      assert (Hcat : take_line out ++ fobj r = out).
      { rewrite Htake, Hr, Hout. reflexivity. }
      split.
      * intros E. rewrite E in Hcat.
        apply (f_equal (@List.length byte)) in Hcat. rewrite length_app in Hcat.
        rewrite Htake, (cleaned_kept He), length_app in Hcat.
        cbn [List.length] in Hcat. lia.
      * right. split; [exact Hok2|]. split; [|exact Hcat].
        subst r. now rewrite read_all_good.
    + assert (Hr : r = mkrun (mkfile out (List.length (take_line out))) []
                         (Raised match decode (rstrip (take_line out)) with
                                 | Some _ => InvalidHeaderError (take_line out)
                                 | None => UnicodeDecodeError (rstrip (take_line out))
                                 end)).
      { subst r. now apply read_header_bad. }
      rewrite Hr. cbn [fobj result]. split; [congruence|].
      left. now repeat split.
Qed.

Lemma extraction_is_idempotent_on_cleaned_lines_witness :
  let out := fobj (read_green_taxi_csv sample_url []) in
  fobj (read_green_taxi_csv (header_line ++ out) []) = out
  /\ fobj (read_green_taxi_csv out []) <> out.
Proof.
  assert (Hen : Forall enough_fields (data_lines sample_url)).
  { assert (E : data_lines sample_url = [sample_row; sample_row])
      by (vm_compute; reflexivity).
    rewrite E. constructor; [exact sample_row_enough|].
    constructor; [exact sample_row_enough | constructor]. }
  assert (Hh : lf_free (rstrip header_line)) by (vm_compute; reflexivity).
  assert (Hhdr : header_fields (rstrip header_line ++ [LF]) = Some HEADER)
    by (vm_compute; reflexivity).
  assert (Hne : fobj (read_green_taxi_csv sample_url []) <> [])
    by (vm_compute; discriminate).
  split.
  - exact (proj2 (proj1 (proj2 extraction_is_idempotent_on_cleaned_lines)
                        sample_url (rstrip header_line)
                        sample_url_header_ok Hen Hh Hhdr)).
  - exact (proj1 (proj2 (proj2 extraction_is_idempotent_on_cleaned_lines)
                        sample_url sample_url_header_ok Hen Hne)).
Defined.

(** C6 as stated fails: the cleaned stream carries no header line.
    Normalizing the output of the sample run stops at the header check and
    writes nothing. *)
Lemma normalizing_own_output_counterexample :
  let out := fobj (read_green_taxi_csv sample_url []) in
  result (read_green_taxi_csv sample_url []) = Returned
  /\ out <> []
  /\ result (read_green_taxi_csv out []) = Raised (InvalidHeaderError (take_line out))
  /\ fobj (read_green_taxi_csv out []) = []
  /\ fobj (read_green_taxi_csv out []) <> out.
Proof.
  cbv zeta. split; [vm_compute; reflexivity|].
  split; [vm_compute; discriminate|].
  split; [vm_compute; reflexivity|].
  split; [vm_compute; reflexivity | vm_compute; discriminate].
Qed.

(** Nor is every line of 20 fields and a newline a fixed point: a carriage
    return before the newline belongs to the 20th field and is cut off. *)
Lemma carriage_return_is_cut :
  let line := List.concat (List.repeat [x61; COMMA] 19) ++ [x62; CR; LF] in
  List.length (fields line) = 20
  /\ cleaned line = List.concat (List.repeat [x61; COMMA] 19) ++ [x62; LF]
  /\ cleaned line <> line.
Proof.
  cbv zeta. split; [vm_compute; reflexivity|].
  split; [vm_compute; reflexivity | vm_compute; discriminate].
Qed.

(** ** Digits *)

Lemma is_digit_val (b : byte) : is_digit b = true -> (0 <= digit_val b <= 9)%Z.
Proof.
  unfold is_digit, in_range, digit_val. intros H.
  apply andb_prop in H as [H1 H2].
  apply N.leb_le in H1, H2. lia.
Qed.

Lemma fold_digits (ds : bytes) (acc : Z) :
  fold_left (fun a b => 10 * a + digit_val b)%Z ds acc
  = (acc * 10 ^ Z.of_nat (List.length ds) + digits_value ds)%Z.
Proof.
  unfold digits_value. revert acc. induction ds as [|b ds IH]; intros acc.
  - simpl. lia.
  - cbn [fold_left List.length]. rewrite IH, (IH (10 * 0 + digit_val b)%Z).
    rewrite Nat2Z.inj_succ, Z.pow_succ_r by lia. ring.
Qed.

Lemma digits_value_cons (b : byte) (ds : bytes) :
  digits_value (b :: ds)
  = (digit_val b * 10 ^ Z.of_nat (List.length ds) + digits_value ds)%Z.
Proof.
  unfold digits_value at 1. cbn [fold_left]. rewrite fold_digits. ring.
Qed.

Lemma digits_value_snoc (ds : bytes) (b : byte) :
  digits_value (ds ++ [b]) = (10 * digits_value ds + digit_val b)%Z.
Proof.
  unfold digits_value. now rewrite fold_left_app.
Qed.

Lemma digits_value_bounds (ds : bytes) :
  forallb is_digit ds = true ->
  (0 <= digits_value ds < 10 ^ Z.of_nat (List.length ds))%Z.
Proof.
  induction ds as [|b ds IH]; intros H.
  - cbn. lia.
  - cbn [forallb] in H. apply andb_prop in H as [Hb Hds].
    specialize (IH Hds). apply is_digit_val in Hb.
    rewrite digits_value_cons. cbn [List.length].
    rewrite Nat2Z.inj_succ, Z.pow_succ_r by lia.
    assert (0 < 10 ^ Z.of_nat (List.length ds))%Z by (apply Z.pow_pos_nonneg; lia).
    nia.
Qed.

(** ** Cell conversion yields values of the column type *)

Lemma parse_int16_range (tok : bytes) (n : Z) :
  parse_int16 tok = Some n -> (-32768 <= n <= 32767)%Z.
Proof.
  unfold parse_int16. destruct (strip_sign tok) as [neg ds].
  destruct ds as [|d ds]; [discriminate|].
  destruct (forallb is_digit (d :: ds)); [|discriminate].
  set (m := if neg then _ else _).
  destruct ((-32768 <=? m) && (m <=? 32767))%Z eqn:E; [|discriminate].
  intros [= <-]. apply andb_prop in E as [E1 E2]. lia.
Qed.

Lemma parse_decimal_range (p s : nat) (tok : bytes) (m : Z) :
  parse_decimal p s tok = Some m ->
  (Z.abs m < 10 ^ Z.of_nat (p - s) * 10 ^ Z.of_nat s)%Z.
Proof.
  unfold parse_decimal. destruct (strip_sign tok) as [neg body].
  pose proof (take_while_all is_digit body) as Hip.
  apply digits_value_bounds in Hip.
  set (ip := take_while is_digit body) in *.
  set (frac := match drop_while is_digit body with [] => Some [] | _ => _ end).
  assert (Hfrac : forall fr, frac = Some fr -> forallb is_digit fr = true).
  { subst frac. intros fr. destruct (drop_while is_digit body) as [|b t].
    - now intros [= <-].
    - destruct (Byte.eqb b DOT && forallb is_digit t)%bool eqn:E; [|discriminate].
      intros [= <-]. now apply andb_prop in E. }
  destruct frac as [fr|]; [|discriminate].
  specialize (Hfrac fr eq_refl). apply digits_value_bounds in Hfrac.
  destruct (List.length ip + List.length fr =? 0); [discriminate|].
  destruct (Nat.ltb_spec s (List.length fr)); [discriminate|].
  destruct (Z.leb_spec (10 ^ Z.of_nat (p - s)) (digits_value ip)); [discriminate|].
  intros [= <-].
  set (k := List.length fr) in *.
  assert (Hs : (10 ^ Z.of_nat s = 10 ^ Z.of_nat k * 10 ^ Z.of_nat (s - k))%Z).
  { rewrite <- Z.pow_add_r by lia. f_equal. lia. }
  assert (0 < 10 ^ Z.of_nat (s - k))%Z by (apply Z.pow_pos_nonneg; lia).
  assert (0 < 10 ^ Z.of_nat k)%Z by (apply Z.pow_pos_nonneg; lia).
  assert (0 < 10 ^ Z.of_nat s)%Z by (apply Z.pow_pos_nonneg; lia).
  assert (Hm : (0 <= digits_value ip * 10 ^ Z.of_nat s
                     + digits_value fr * 10 ^ Z.of_nat (s - k)
                < 10 ^ Z.of_nat (p - s) * 10 ^ Z.of_nat s)%Z) by nia.
  destruct neg; lia.
Qed.

Section EncoderFacts.
Variable strptime : string -> string -> bytes -> option Z.

Lemma convert_cell_typed (opts : ConvertOptions) (ty : DataType) (tok : bytes)
      (v : value) :
  convert_cell strptime opts ty tok = Some v -> has_type ty v.
Proof.
  unfold convert_cell. destruct (member tok (null_values opts)).
  - now intros [= <-].
  - destruct ty as [|u tz| |p s].
    + destruct (parse_int16 tok) as [n|] eqn:E; [|discriminate].
      intros [= <-]. now apply parse_int16_range in E.
    + destruct (timestamp_parsers opts); [discriminate|].
      destruct (strptime _ tz tok); [|discriminate]. now intros [= <-].
    + destruct (member tok (true_values opts)); [now intros [= <-]|].
      destruct (member tok (false_values opts)); [now intros [= <-] | discriminate].
    + destruct (parse_decimal p s tok) as [m|] eqn:E; [|discriminate].
      intros [= <-]. split; [reflexivity|]. now apply parse_decimal_range in E.
Qed.

Lemma convert_row_typed (opts : ConvertOptions) (row : nat)
      (cols : list (str * DataType)) (toks : list bytes) (vs : list value) :
  List.length toks = List.length cols ->
  convert_row strptime opts row cols toks = inr vs ->
  Forall2 (fun nt v => has_type (snd nt) v) cols vs.
Proof.
  revert toks vs. induction cols as [|[name ty] cols IH]; intros toks vs Hlen.
  - simpl. intros [= <-]. constructor.
  - destruct toks as [|tok toks]; [discriminate|]. cbn [convert_row].
    destruct (convert_cell strptime opts ty tok) as [v|] eqn:Ev; [|discriminate].
    destruct (convert_row strptime opts row cols toks) as [e|vs'] eqn:Er;
      [discriminate|].
    intros [= <-]. constructor.
    + now apply convert_cell_typed in Ev.
    + apply (IH toks); [simpl in Hlen; lia | exact Er].
Qed.

Lemma convert_rows_typed (opts : ConvertOptions) (ropts : ReadOptions)
      (lines : list bytes) (row : nat) (rows : list (list value)) :
  List.length (column_names ropts) <= List.length (types (column_types opts)) ->
  convert_rows strptime opts ropts row lines = inr rows ->
  List.length rows = List.length lines
  /\ Forall (Forall2 (fun nt v => has_type (snd nt) v)
                     (combine (column_names ropts) (types (column_types opts))))
            rows.
Proof.
  intros Hcols. revert row rows.
  induction lines as [|l ls IH]; intros row rows.
  - simpl. intros [= <-]. split; [reflexivity | constructor].
  - cbn [convert_rows].
    destruct (Nat.eqb_spec (List.length (fields (chomp l)))
                           (List.length (column_names ropts))) as [Hlen|];
      [|discriminate]. cbn [negb].
    destruct (convert_row strptime opts row _ (fields (chomp l))) as [e|vs] eqn:Ev;
      [discriminate|].
    destruct (convert_rows strptime opts ropts (S row) ls) as [e|rows'] eqn:Er;
      [discriminate|].
    intros [= <-]. destruct (IH _ _ Er) as [IH1 IH2]. split.
    + simpl. now rewrite IH1.
    + constructor; [|exact IH2].
      apply convert_row_typed in Ev; [exact Ev|].
      rewrite length_combine. lia.
Qed.

Lemma Forall2_nth_has_type (cols : list (str * DataType)) (r : list value) (i : nat)
      (d : str * DataType) :
  Forall2 (fun nt v => has_type (snd nt) v) cols r ->
  i < List.length cols ->
  has_type (snd (nth i cols d)) (nth i r VNull).
Proof.
  intros H. revert i. induction H as [|nt v cols r Hv H IH]; intros i Hi.
  - simpl in Hi. lia.
  - destruct i as [|i]; [exact Hv|]. simpl. apply IH. simpl in Hi. lia.
Qed.

Lemma columns_complete (cols : list (str * DataType)) (rows : list (list value))
      (k : nat) (cs : list (str * DataType)) :
  Forall (Forall2 (fun nt v => has_type (snd nt) v) cols) rows ->
  skipn k cols = cs ->
  Forall2 (fun nt col => List.length col = List.length rows
                         /\ Forall (has_type (snd nt)) col)
          cs (List.map (column rows) (seq k (List.length cs))).
Proof.
  intros Hrows. revert k. induction cs as [|c cs IH]; intros k Hk; [constructor|].
  cbn [List.length seq List.map]. constructor.
  - split; [apply length_map|]. unfold column. apply Forall_map.
    revert Hrows. apply Forall_impl. intros r Hr.
    assert (Hi : k < List.length cols).
    { destruct (Nat.lt_ge_cases k (List.length cols)) as [Hlt|Hge]; [exact Hlt|].
      rewrite skipn_all2 in Hk by exact Hge. discriminate. }
    replace c with (nth k cols c).
    + now apply Forall2_nth_has_type.
    + rewrite <- hd_skipn, Hk. reflexivity.
  - apply IH. change (S k) with (1 + k). rewrite <- skipn_skipn, Hk. reflexivity.
Qed.

Lemma SCHEMA_combine : combine (names SCHEMA) (types SCHEMA) = SCHEMA.
Proof. reflexivity. Qed.

(** A table [parse_green_taxi_csv] returns is complete, with one row per
    line of the buffer. *)
Lemma parse_complete (buf : bytes) (t : Table) :
  parse_green_taxi_csv strptime buf = inr t ->
  complete_table (List.length (split_lines buf)) t.
Proof.
  unfold parse_green_taxi_csv, read_csv.
  destruct (convert_rows strptime convert_options read_options 0 (split_lines buf))
    as [e|rows] eqn:E; [discriminate|].
  intros [= <-]. apply convert_rows_typed in E as [Hlen Hrows];
    [| cbn; lia].
  cbn [column_names read_options column_types convert_options] in *.
  rewrite SCHEMA_combine in *. split; [reflexivity|]. cbn [columns schema].
  rewrite <- Hlen. exact (@columns_complete SCHEMA rows 0 SCHEMA Hrows eq_refl).
Qed.
End EncoderFacts.

(** ** How a run can end *)

Lemma re_match_some_enough (l g : bytes) :
  re_match PATTERN_DATA l = Some g -> enough_fields l.
Proof.
  unfold enough_fields. intros H.
  destruct (Nat.lt_ge_cases (List.length (fields l)) 20) as [Hlt|Hge]; [|exact Hge].
  rewrite (@re_match_short l Hlt) in H. discriminate.
Qed.

Lemma clean_loop_returned (data : bytes) (ls : list bytes) (p : nat) (sink : bytes) :
  result (clean_loop data ls p sink) = Returned -> Forall enough_fields ls.
Proof.
  revert p sink. induction ls as [|l ls IH]; intros p sink; [constructor|].
  cbn [clean_loop]. destruct (re_match PATTERN_DATA l) as [g|] eqn:E.
  - intros H. constructor; [now apply re_match_some_enough in E | now apply IH in H].
  - discriminate.
Qed.

Lemma clean_loop_ends (data : bytes) (ls : list bytes) (p : nat) (sink : bytes) :
  result (clean_loop data ls p sink) <> OutOfFuel.
Proof.
  revert p sink. induction ls as [|l ls IH]; intros p sink; [discriminate|].
  cbn [clean_loop]. destruct (re_match PATTERN_DATA l); [apply IH | discriminate].
Qed.

(** The fuel handed to the loops is never used up. *)
Lemma read_ends (url sink : bytes) :
  result (read_green_taxi_csv url sink) <> OutOfFuel.
Proof.
  destruct (header_ok_dec url) as [Hok|Hbad].
  - rewrite read_header_ok by exact Hok. apply clean_loop_ends.
  - rewrite read_header_bad by exact Hbad. discriminate.
Qed.

Lemma read_returned (url sink : bytes) :
  result (read_green_taxi_csv url sink) = Returned ->
  header_ok url /\ Forall enough_fields (data_lines url).
Proof.
  destruct (header_ok_dec url) as [Hok|Hbad].
  - rewrite read_header_ok by exact Hok. intros H. split; [exact Hok|].
    now apply clean_loop_returned in H.
  - rewrite read_header_bad by exact Hbad. discriminate.
Qed.

Lemma read_returned_lines (url : bytes) :
  result (read_green_taxi_csv url []) = Returned ->
  split_lines (fobj (read_green_taxi_csv url [])) = List.map cleaned (data_lines url).
Proof.
  intros H. apply read_returned in H as [Hok Hen].
  rewrite read_all_good by assumption. cbn [fobj app].
  apply cleaned_lines_split; [apply data_lines_shape | exact Hen].
Qed.

(** ** [main] *)

(** C8.  A run of [main] ends in exactly one of three ways: the normalizer
    raised, and the exception leaves [main] with nothing parsed or written;
    the encoder failed on the cleaned buffer, and nothing is written; or a
    complete table is written: the schema's 20 columns, each holding one
    value of the column's type per data line.  It never runs out of fuel. *)
Theorem main_is_all_or_nothing
        (strptime : string -> string -> bytes -> option Z) (url : bytes) :
  let r := read_green_taxi_csv url [] in
  match main strptime url with
  | Failed e => result r = Raised e
  | ArrowInvalid e =>
      result r = Returned /\ parse_green_taxi_csv strptime (fobj r) = inl e
  | Written _ t =>
      result r = Returned
      /\ parse_green_taxi_csv strptime (fobj r) = inr t
      /\ List.length (columns t) = 20
      /\ complete_table (List.length (data_lines url)) t
  | Diverged => False
  end.
Proof.
  intros r. unfold main. fold r.
  pose proof (@read_ends url []) as Hends. fold r in Hends.
  pose proof (@read_returned_lines url) as Hlines. fold r in Hlines.
  destruct (result r) as [|e|]; [| reflexivity | congruence].
  destruct (parse_green_taxi_csv strptime (fobj r)) as [e|t] eqn:E.
  - now split.
  - apply parse_complete in E as Hc. rewrite Hlines, length_map in Hc by reflexivity.
    repeat split; try apply Hc.
    destruct Hc as [_ Hc]. apply Forall2_length in Hc. now rewrite <- Hc.
Qed.

(** C10.  The table of a successful run carries the schema's names: the
    third is [lpep_dropoff_datetime], although the header the run has
    validated spells it [Lpep_dropoff_datetime]; at every other position the
    two lists of names agree. *)
Theorem table_names_come_from_schema
        (strptime : string -> string -> bytes -> option Z) (url : bytes)
        (path : string) (t : Table) :
  main strptime url = Written path t ->
  header_fields (take_line url) = Some HEADER
  /\ names (schema t) = names SCHEMA
  /\ List.length (names (schema t)) = 20
  /\ List.length HEADER = 20
  /\ nth 2 (names (schema t)) [] = str_of "lpep_dropoff_datetime"
  /\ nth 2 HEADER [] = str_of "Lpep_dropoff_datetime"
  /\ nth 2 (names (schema t)) [] <> nth 2 HEADER []
  /\ forall i, i <> 2 -> nth i (names (schema t)) [] = nth i HEADER [].
Proof.
  intros Hmain. unfold main in Hmain.
  destruct (result (read_green_taxi_csv url [])) eqn:Hret; try discriminate.
  destruct (parse_green_taxi_csv strptime (fobj (read_green_taxi_csv url [])))
    as [e|t'] eqn:Hparse; [discriminate|].
  injection Hmain as _ <-.
  apply read_returned in Hret as [Hok _].
  apply parse_complete in Hparse as [Hs _]. rewrite Hs.
  split; [exact Hok|]. split; [reflexivity|]. split; [reflexivity|].
  split; [reflexivity|]. split; [reflexivity|]. split; [reflexivity|].
  split; [vm_compute; discriminate|].
  intros i Hi.
  do 20 (destruct i as [|i]; [first [reflexivity | congruence]|]).
  now destruct i.
Qed.

Lemma table_names_come_from_schema_witness :
  exists t, main sample_strptime sample_url = Written "01.parquet" t
            /\ nth 2 (names (schema t)) [] = str_of "lpep_dropoff_datetime".
Proof.
  destruct (main sample_strptime sample_url) as [e|e| |path t] eqn:E;
    try (vm_compute in E; discriminate).
  assert (Hp : path = "01.parquet"%string)
    by (unfold main in E; destruct (result _); try discriminate;
        destruct (parse_green_taxi_csv _ _); now inversion E).
  subst path. exists t. split; [reflexivity|].
  exact (proj1 (proj2 (proj2 (proj2 (proj2
           (@table_names_come_from_schema sample_strptime sample_url _ t E)))))).
Defined.

(** ** Boolean cells *)

Lemma bytes_eqb_neq (a b : bytes) : a <> b -> bytes_eqb a b = false.
Proof.
  unfold bytes_eqb. destruct (list_eq_dec Byte.byte_eq_dec a b); congruence.
Qed.

Lemma bool_cell_other (strptime : string -> string -> bytes -> option Z) (tok : bytes) :
  tok <> b_ "Y" -> tok <> b_ "N" -> tok <> b_ "" ->
  convert_cell strptime convert_options BOOLEAN tok = None.
Proof.
  intros HY HN HE. unfold convert_cell, member.
  cbn [convert_options null_values true_values false_values existsb BOOLEAN].
  now rewrite (bytes_eqb_neq HE), (bytes_eqb_neq HY), (bytes_eqb_neq HN).
Qed.

(** A Bool cell that converts held one of the three tokens. *)
Lemma bool_cell_inv (strptime : string -> string -> bytes -> option Z)
      (tok : bytes) (v : value) :
  convert_cell strptime convert_options BOOLEAN tok = Some v ->
  (tok = b_ "Y" /\ v = VBool true) \/ (tok = b_ "N" /\ v = VBool false)
  \/ (tok = b_ "" /\ v = VNull).
Proof.
  destruct (list_eq_dec Byte.byte_eq_dec tok (b_ "")) as [->|HE];
    [intros [= <-]; auto|].
  destruct (list_eq_dec Byte.byte_eq_dec tok (b_ "Y")) as [->|HY];
    [intros [= <-]; auto|].
  destruct (list_eq_dec Byte.byte_eq_dec tok (b_ "N")) as [->|HN];
    [intros [= <-]; auto|].
  now rewrite bool_cell_other.
Qed.

(** The first cell of a record that does not convert is the error of the
    record. *)
Lemma convert_row_first_failure (strptime : string -> string -> bytes -> option Z)
      (opts : ConvertOptions) (row : nat) (pre post : list (str * DataType))
      (name : str) (ty : DataType) (tpre tpost : list bytes) (tok : bytes)
      (vs : list value) :
  List.length tpre = List.length pre ->
  convert_row strptime opts row pre tpre = inr vs ->
  convert_cell strptime opts ty tok = None ->
  convert_row strptime opts row (pre ++ (name, ty) :: post) (tpre ++ tok :: tpost)
  = inl (ConversionError name row tok).
Proof.
  revert tpre vs. induction pre as [|[n t] pre IH]; intros tpre vs Hlen Hpre Hcell.
  - destruct tpre; [|discriminate]. cbn. now rewrite Hcell.
  - destruct tpre as [|t0 tpre]; [discriminate|]. cbn [app convert_row] in *.
    destruct (convert_cell strptime opts t t0) as [v|]; [|discriminate].
    destruct (convert_row strptime opts row pre tpre) as [e|vs'] eqn:E; [discriminate|].
    rewrite (IH tpre vs'); [reflexivity | simpl in Hlen; lia | exact E | exact Hcell].
Qed.

(** The first record that does not convert is the error of the buffer. *)
Lemma convert_rows_first_failure (strptime : string -> string -> bytes -> option Z)
      (opts : ConvertOptions) (ropts : ReadOptions) (good : list bytes) (bad : bytes)
      (rest : list bytes) (row : nat) (rows : list (list value)) (e : arrow_error) :
  convert_rows strptime opts ropts row good = inr rows ->
  List.length (fields (chomp bad)) = List.length (column_names ropts) ->
  convert_row strptime opts (row + List.length good)
              (combine (column_names ropts) (types (column_types opts)))
              (fields (chomp bad)) = inl e ->
  convert_rows strptime opts ropts row (good ++ bad :: rest) = inl e.
Proof.
  revert row rows. induction good as [|l good IH]; intros row rows Hgood Hlen Hbad.
  - cbn [app convert_rows List.length] in *. rewrite Nat.add_0_r in Hbad.
    rewrite Hlen, Nat.eqb_refl. cbn [negb]. now rewrite Hbad.
  - cbn [app convert_rows] in *.
    destruct (negb (List.length (fields (chomp l)) =? List.length (column_names ropts)));
      [discriminate|].
    destruct (convert_row strptime opts row _ (fields (chomp l))) as [e'|vs];
      [discriminate|].
    destruct (convert_rows strptime opts ropts (S row) good) as [e'|rows'] eqn:E;
      [discriminate|].
    rewrite (IH (S row) rows'); [reflexivity | exact E | exact Hlen |].
    cbn [List.length] in Hbad. now rewrite Nat.add_succ_comm.
Qed.

(** Every record of a buffer that converts was converted, cell by cell. *)
Lemma convert_rows_nth (strptime : string -> string -> bytes -> option Z)
      (opts : ConvertOptions) (ropts : ReadOptions) (lines : list bytes) (row : nat)
      (rows : list (list value)) (i : nat) (line : bytes) :
  convert_rows strptime opts ropts row lines = inr rows ->
  nth_error lines i = Some line ->
  exists vs,
    nth_error rows i = Some vs
    /\ List.length (fields (chomp line)) = List.length (column_names ropts)
    /\ convert_row strptime opts (row + i)
                   (combine (column_names ropts) (types (column_types opts)))
                   (fields (chomp line)) = inr vs.
Proof.
  revert row rows i. induction lines as [|l lines IH]; intros row rows i Hrows Hnth.
  - destruct i; discriminate.
  - cbn [convert_rows] in Hrows.
    destruct (Nat.eqb_spec (List.length (fields (chomp l)))
                           (List.length (column_names ropts))) as [Hlen|];
      [|discriminate]. cbn [negb] in Hrows.
    destruct (convert_row strptime opts row _ (fields (chomp l))) as [e|vs] eqn:Ev;
      [discriminate|].
    destruct (convert_rows strptime opts ropts (S row) lines) as [e|rows'] eqn:Er;
      [discriminate|].
    injection Hrows as <-. destruct i as [|i].
    + injection Hnth as <-. exists vs. rewrite Nat.add_0_r. now repeat split.
    + cbn [nth_error] in *. destruct (IH _ _ _ Er Hnth) as (vs' & H1 & H2 & H3).
      exists vs'. rewrite <- Nat.add_succ_comm. now repeat split.
Qed.

(** The fourth value of a converted record of the schema is its fourth
    token, converted as a Bool. *)
Lemma convert_row_flag (strptime : string -> string -> bytes -> option Z)
      (row : nat) (toks : list bytes) (vs : list value) :
  List.length toks = List.length (names SCHEMA) ->
  convert_row strptime convert_options row SCHEMA toks = inr vs ->
  exists tok,
    nth_error toks 3 = Some tok
    /\ convert_cell strptime convert_options BOOLEAN tok = Some (nth 3 vs VNull).
Proof.
  intros Hlen.
  destruct toks as [|t0 [|t1 [|t2 [|tok toks]]]]; try discriminate Hlen.
  unfold SCHEMA. cbn [convert_row List.map fst snd].
  destruct (convert_cell strptime convert_options INTEGER t0) as [v0|]; [|discriminate].
  destruct (convert_cell strptime convert_options TIMESTAMP t1) as [v1|]; [|discriminate].
  destruct (convert_cell strptime convert_options TIMESTAMP t2) as [v2|]; [|discriminate].
  destruct (convert_cell strptime convert_options BOOLEAN tok) as [v3|] eqn:E3;
    [|discriminate].
  match goal with
  | |- context [match ?r with inl e => inl e | inr vs0 => inr (v3 :: vs0) end] =>
      destruct r as [e|rest]; [discriminate|]
  end.
  intros [= <-]. exists tok. split; [reflexivity | exact E3].
Qed.

(** C7.  In the Bool column, with the token sets [parse_green_taxi_csv]
    configures, ["Y"] is true, ["N"] is false, the empty token is null, and
    every other token, the lower-case ["y"] among them, is a conversion
    error: of the cell, of its record, which fails with [ConversionError]
    naming the column, the row and the token, and of the encoder, which
    returns that error when the cell is the first that does not convert and
    never returns a table for a buffer that holds such a token.  A table
    that is returned holds, row by row, the value of the row's token. *)
Theorem bool_tokens (strptime : string -> string -> bytes -> option Z) :
  nth 3 SCHEMA ([], int16) = (str_of "Store_and_fwd_flag", BOOLEAN)
  /\ Forall (fun nt => snd nt = bool_ -> fst nt = str_of "Store_and_fwd_flag") SCHEMA
  /\ convert_cell strptime convert_options BOOLEAN (b_ "Y") = Some (VBool true)
  /\ convert_cell strptime convert_options BOOLEAN (b_ "N") = Some (VBool false)
  /\ convert_cell strptime convert_options BOOLEAN (b_ "") = Some VNull
  /\ convert_cell strptime convert_options BOOLEAN (b_ "y") = None
  /\ (forall tok,
         tok <> b_ "Y" -> tok <> b_ "N" -> tok <> b_ "" ->
         convert_cell strptime convert_options BOOLEAN tok = None
         /\ (forall row pre post name tpre tpost vs,
                List.length tpre = List.length pre ->
                convert_row strptime convert_options row pre tpre = inr vs ->
                convert_row strptime convert_options row
                            (pre ++ (name, BOOLEAN) :: post) (tpre ++ tok :: tpost)
                = inl (ConversionError name row tok))
         /\ (forall buf good bad rest rows tpre tpost vs,
                split_lines buf = good ++ bad :: rest ->
                convert_rows strptime convert_options read_options 0 good = inr rows ->
                fields (chomp bad) = tpre ++ tok :: tpost ->
                List.length tpre = 3 -> List.length tpost = 16 ->
                convert_row strptime convert_options (List.length good)
                            (firstn 3 SCHEMA) tpre = inr vs ->
                parse_green_taxi_csv strptime buf
                = inl (ConversionError (str_of "Store_and_fwd_flag")
                                       (List.length good) tok))
         /\ (forall buf i line,
                nth_error (split_lines buf) i = Some line ->
                nth_error (fields (chomp line)) 3 = Some tok ->
                exists e, parse_green_taxi_csv strptime buf = inl e))
  /\ (forall buf t,
         parse_green_taxi_csv strptime buf = inr t ->
         forall i line,
           nth_error (split_lines buf) i = Some line ->
           exists tok,
             nth_error (fields (chomp line)) 3 = Some tok
             /\ let cell := nth i (nth 3 (columns t) []) VNull in
                (tok = b_ "Y" /\ cell = VBool true)
                \/ (tok = b_ "N" /\ cell = VBool false)
                \/ (tok = b_ "" /\ cell = VNull)).
Proof.
  assert (Hsound : forall buf t,
             parse_green_taxi_csv strptime buf = inr t ->
             forall i line,
               nth_error (split_lines buf) i = Some line ->
               exists tok,
                 nth_error (fields (chomp line)) 3 = Some tok
                 /\ convert_cell strptime convert_options BOOLEAN tok
                    = Some (nth i (nth 3 (columns t) []) VNull)).
  { intros buf t Hparse i line Hline.
    unfold parse_green_taxi_csv, read_csv in Hparse.
    destruct (convert_rows strptime convert_options read_options 0 (split_lines buf))
      as [e|rows] eqn:Erows; [discriminate|].
    injection Hparse as <-.
    destruct (@convert_rows_nth strptime convert_options read_options (split_lines buf)
                0 rows i line Erows Hline) as (vs & Hvs & Hlen & Hrow).
    cbn [read_options column_names convert_options column_types] in Hlen, Hrow.
    rewrite SCHEMA_combine in Hrow.
    destruct (@convert_row_flag strptime i (fields (chomp line)) vs Hlen Hrow)
      as (tok & Htok & Hcell).
    exists tok. split; [exact Htok|]. rewrite Hcell. f_equal.
    cbn [columns nth]. unfold column. symmetry. apply nth_error_nth.
    now apply (map_nth_error (fun r => nth 3 r VNull)). }
  split; [reflexivity|]. split.
  { repeat constructor; cbn; intros H; discriminate || reflexivity. }
  split; [reflexivity|]. split; [reflexivity|].
  split; [reflexivity|]. split; [reflexivity|]. split.
  - intros tok HY HN HE.
    pose proof (@bool_cell_other strptime tok HY HN HE) as Hcell.
    split; [exact Hcell|]. split; [|split].
    + intros row pre post name tpre tpost vs Hlen Hpre.
      now apply convert_row_first_failure with (vs := vs).
    + intros buf good bad rest rows tpre tpost vs Hbuf Hgood Hbad Hl3 Hl16 Hpre.
      unfold parse_green_taxi_csv, read_csv. rewrite Hbuf.
      rewrite (@convert_rows_first_failure strptime convert_options read_options good bad
                 rest 0 rows (ConversionError (str_of "Store_and_fwd_flag")
                                              (List.length good) tok));
        [reflexivity | exact Hgood | |].
      * rewrite Hbad, length_app. cbn [List.length]. rewrite Hl3, Hl16. reflexivity.
      * cbn [read_options column_names convert_options column_types Nat.add].
        rewrite SCHEMA_combine, Hbad.
        change SCHEMA with (firstn 3 SCHEMA
                              ++ (str_of "Store_and_fwd_flag", BOOLEAN) :: skipn 4 SCHEMA).
        apply convert_row_first_failure with (vs := vs);
          [rewrite Hl3; reflexivity | exact Hpre | exact Hcell].
    + intros buf i line Hline Htok.
      destruct (parse_green_taxi_csv strptime buf) as [e|t] eqn:Eparse;
        [now exists e|].
      destruct (Hsound buf t Eparse i line Hline) as (tok' & Htok' & Hc).
      rewrite Htok in Htok'. injection Htok' as <-. rewrite Hcell in Hc. discriminate.
  - intros buf t Hparse i line Hline.
    destruct (Hsound buf t Hparse i line Hline) as (tok & Htok & Hc).
    exists tok. split; [exact Htok|]. cbv zeta. now apply bool_cell_inv in Hc.
Qed.

Lemma bool_tokens_witness :
  parse_green_taxi_csv sample_strptime lower_case_flag_row
  = inl (ConversionError (str_of "Store_and_fwd_flag") 0 (b_ "y")).
Proof.
  assert (HY : b_ "y" <> b_ "Y") by (vm_compute; discriminate).
  assert (HN : b_ "y" <> b_ "N") by (vm_compute; discriminate).
  assert (HE : b_ "y" <> b_ "") by (vm_compute; discriminate).
  pose proof (proj1 (proj2 (proj2
    (proj1 (proj2 (proj2 (proj2 (proj2 (proj2 (proj2 (bool_tokens sample_strptime)))))))
           (b_ "y") HY HN HE)))) as T.
  apply (T lower_case_flag_row [] lower_case_flag_row [] []
           [b_ "2"; b_ "2013-09-01 00:02:00"; b_ "2013-09-01 00:54:51"]
           (List.map b_ ["1"; "-73.952407836914062"; "40.810726165771484";
                         "-73.983940124511719"; "40.676284790039063"; "5"; "14.35";
                         "50.5"; "0.5"; "0.5"; "10.3"; "0"; ""; "61.8"; "1"; "1"]%string)
           [VInt 2; VTimestamp 0; VTimestamp 0]);
    vm_compute; reflexivity.
Defined.

(** ** Decimal cells *)

Lemma digits_value_app (a b : bytes) :
  digits_value (a ++ b)
  = (digits_value a * 10 ^ Z.of_nat (List.length b) + digits_value b)%Z.
Proof.
  unfold digits_value at 1. rewrite fold_left_app, fold_digits. reflexivity.
Qed.








Lemma take_while_digits (ip rest : bytes) (c : byte) :
  forallb is_digit ip = true -> is_digit c = false ->
  take_while is_digit (ip ++ c :: rest) = ip
  /\ drop_while is_digit (ip ++ c :: rest) = c :: rest.
Proof.
  intros Hip Hc. induction ip as [|b ip IH]; simpl.
  - now rewrite Hc.
  - cbn [forallb] in Hip. apply andb_prop in Hip as [Hb Hip].
    rewrite Hb. destruct (IH Hip) as [-> ->]. now split.
Qed.




(** *** Literals with fewer fractional digits, or none *)

Lemma strip_sign_body (neg : bool) (body : bytes) :
  match body with b :: _ => b <> MINUS | [] => True end ->
  strip_sign ((if neg then [MINUS] else []) ++ body) = (neg, body).
Proof.
  intros H. destruct neg; [reflexivity|].
  destruct body as [|b body]; [reflexivity|]. cbn [app strip_sign].
  destruct (Byte.eqb b MINUS) eqn:E; [|reflexivity].
  apply Byte.byte_dec_bl in E. contradiction.
Qed.

Lemma digits_not_minus (ip rest : bytes) (c : byte) :
  forallb is_digit ip = true -> c <> MINUS ->
  match ip ++ c :: rest with b :: _ => b <> MINUS | [] => True end.
Proof.
  intros Hip Hc. destruct ip as [|b ip]; [exact Hc|]. cbn [app].
  cbn [forallb] in Hip. apply andb_prop in Hip as [Hb _].
  intros ->. discriminate Hb.
Qed.


(** A literal with a point and at most [s] fractional digits is read as
    its digits followed by the zeros that are missing: its value times
    [10 ^ s]. *)
Lemma parse_decimal_literal (p s : nat) (neg : bool) (ip fr : bytes) :
  forallb is_digit ip = true -> forallb is_digit fr = true ->
  ip ++ fr <> [] -> List.length fr <= s ->
  (digits_value ip < 10 ^ Z.of_nat (p - s))%Z ->
  parse_decimal p s (decimal_token neg ip fr)
  = Some (signed neg (digits_value (ip ++ fr) * 10 ^ Z.of_nat (s - List.length fr))).
Proof.
  intros Hip Hfr Hne Hlen Hlt. unfold parse_decimal, decimal_token.
  rewrite strip_sign_body by (apply digits_not_minus; [exact Hip | discriminate]).
  destruct (@take_while_digits ip fr DOT Hip eq_refl) as [-> ->].
  change (Byte.eqb DOT DOT) with true. rewrite Hfr. cbn [andb].
  destruct (Nat.eqb_spec (List.length ip + List.length fr) 0) as [E|_].
  { destruct ip; [destruct fr; [now elim Hne | simpl in E; lia] | simpl in E; lia]. }
  destruct (Nat.ltb_spec s (List.length fr)); [lia|].
  destruct (Z.leb_spec (10 ^ Z.of_nat (p - s)) (digits_value ip)); [lia|].
  unfold signed. rewrite digits_value_app.
  assert (E : (10 ^ Z.of_nat s
               = 10 ^ Z.of_nat (List.length fr) * 10 ^ Z.of_nat (s - List.length fr))%Z).
  { rewrite <- Z.pow_add_r by lia. f_equal. lia. }
  rewrite E. destruct neg; f_equal; ring.
Qed.



(** *** The decoded text *)

Lemma to_digits_length (k : nat) (n : Z) : List.length (to_digits k n) = k.
Proof.
  revert n. induction k as [|k IH]; intros n; [reflexivity|].
  cbn [to_digits]. rewrite length_app, IH. cbn. lia.
Qed.

Lemma digit_byte_digit (d : Z) :
  (0 <= d <= 9)%Z -> is_digit (digit_byte d) = true /\ digit_val (digit_byte d) = d.
Proof.
  intros H.
  assert (E : (d = 0 \/ d = 1 \/ d = 2 \/ d = 3 \/ d = 4 \/ d = 5 \/ d = 6
               \/ d = 7 \/ d = 8 \/ d = 9)%Z) by lia.
  repeat (destruct E as [-> | E]; [split; reflexivity|]). subst d. split; reflexivity.
Qed.

Lemma to_digits_digits (k : nat) (n : Z) : forallb is_digit (to_digits k n) = true.
Proof.
  revert n. induction k as [|k IH]; intros n; [reflexivity|].
  cbn [to_digits]. rewrite forallb_app, IH. cbn [forallb andb].
  destruct (@digit_byte_digit (n mod 10)) as [-> _]; [|reflexivity].
  pose proof (Z.mod_pos_bound n 10). lia.
Qed.

(** The digits written at width [k] spell the number, up to [10 ^ k]. *)
Lemma digits_value_to_digits (k : nat) (n : Z) :
  digits_value (to_digits k n) = (n mod 10 ^ Z.of_nat k)%Z.
Proof.
  revert n. induction k as [|k IH]; intros n.
  - cbn. now rewrite Z.mod_1_r.
  - cbn [to_digits]. rewrite digits_value_snoc, IH.
    destruct (@digit_byte_digit (n mod 10)) as [_ ->].
    { pose proof (Z.mod_pos_bound n 10). lia. }
    rewrite Nat2Z.inj_succ, Z.pow_succ_r by lia.
    rewrite Z.rem_mul_r; [lia | lia |]. apply Z.pow_pos_nonneg; lia.
Qed.

Lemma strip_zeros_nonempty (ds : bytes) : ds <> [] -> strip_zeros ds <> [].
Proof.
  induction ds as [|b ds IH]; [congruence|]. intros _.
  destruct ds as [|c t]; [discriminate|].
  change (strip_zeros (b :: c :: t))
    with (if Byte.eqb b ZERO then strip_zeros (c :: t) else b :: c :: t).
  destruct (Byte.eqb b ZERO); [apply IH|]; discriminate.
Qed.

Lemma strip_zeros_digits (ds : bytes) :
  forallb is_digit ds = true -> forallb is_digit (strip_zeros ds) = true.
Proof.
  induction ds as [|b ds IH]; [reflexivity|]. intros H.
  destruct ds as [|c t]; [exact H|].
  change (strip_zeros (b :: c :: t))
    with (if Byte.eqb b ZERO then strip_zeros (c :: t) else b :: c :: t).
  destruct (Byte.eqb b ZERO); [|exact H].
  apply IH. cbn [forallb] in H. now apply andb_prop in H as [_ H].
Qed.

Lemma strip_zeros_idempotent (ds : bytes) : strip_zeros (strip_zeros ds) = strip_zeros ds.
Proof.
  induction ds as [|b ds IH]; [reflexivity|].
  destruct ds as [|c t]; [reflexivity|].
  change (strip_zeros (b :: c :: t))
    with (if Byte.eqb b ZERO then strip_zeros (c :: t) else b :: c :: t).
  destruct (Byte.eqb b ZERO) eqn:E; [exact IH|].
  change (strip_zeros (b :: c :: t))
    with (if Byte.eqb b ZERO then strip_zeros (c :: t) else b :: c :: t).
  now rewrite E.
Qed.

Lemma strip_zeros_value (ds : bytes) : digits_value (strip_zeros ds) = digits_value ds.
Proof.
  induction ds as [|b ds IH]; [reflexivity|].
  destruct ds as [|c t]; [reflexivity|].
  change (strip_zeros (b :: c :: t))
    with (if Byte.eqb b ZERO then strip_zeros (c :: t) else b :: c :: t).
  destruct (Byte.eqb b ZERO) eqn:E; [|reflexivity].
  apply Byte.byte_dec_bl in E. subst b. rewrite IH.
  rewrite (digits_value_cons ZERO). change (digit_val ZERO) with 0%Z. lia.
Qed.

(** Whatever the value, the decoded text is a canonical literal. *)
Lemma format_decimal_shape (p s : nat) (v : Z) :
  exists ip fr,
    format_decimal p s v = decimal_token (v <? 0)%Z ip fr
    /\ ip <> [] /\ forallb is_digit ip = true /\ forallb is_digit fr = true
    /\ List.length fr = s /\ strip_zeros ip = ip
    /\ digits_value ip = ((Z.abs v / 10 ^ Z.of_nat s) mod 10 ^ Z.of_nat (S (p - s)))%Z
    /\ digits_value fr = (Z.abs v mod 10 ^ Z.of_nat s)%Z.
Proof.
  exists (strip_zeros (to_digits (S (p - s)) (Z.abs v / 10 ^ Z.of_nat s))),
         (to_digits s (Z.abs v mod 10 ^ Z.of_nat s)).
  split; [reflexivity|].
  split.
  { apply strip_zeros_nonempty. intros E.
    apply (f_equal (@List.length byte)) in E. rewrite to_digits_length in E.
    discriminate E. }
  split; [apply strip_zeros_digits, to_digits_digits|].
  split; [apply to_digits_digits|].
  split; [apply to_digits_length|].
  split; [apply strip_zeros_idempotent|].
  split.
  - now rewrite strip_zeros_value, digits_value_to_digits.
  - rewrite digits_value_to_digits. apply Z.mod_mod.
    apply Z.pow_nonzero; lia.
Qed.

Lemma format_decimal_canonical (p s : nat) (v : Z) :
  s <= p -> (Z.abs v < 10 ^ Z.of_nat p)%Z ->
  exists neg ip fr,
    format_decimal p s v = decimal_token neg ip fr
    /\ canonical s neg ip fr
    /\ (digits_value ip < 10 ^ Z.of_nat (p - s))%Z
    /\ v = signed neg (digits_value (ip ++ fr)).
Proof.
  intros Hsp Hv.
  destruct (format_decimal_shape p s v)
    as (ip & fr & E & Hne & Hip & Hfr & Hlen & Hcanon & Vip & Vfr).
  assert (Hs : (0 < 10 ^ Z.of_nat s)%Z) by (apply Z.pow_pos_nonneg; lia).
  assert (Hps : (0 < 10 ^ Z.of_nat (p - s))%Z) by (apply Z.pow_pos_nonneg; lia).
  assert (Hpow : (10 ^ Z.of_nat p = 10 ^ Z.of_nat (p - s) * 10 ^ Z.of_nat s)%Z).
  { rewrite <- Z.pow_add_r by lia. f_equal. lia. }
  assert (Hq : (0 <= Z.abs v / 10 ^ Z.of_nat s < 10 ^ Z.of_nat (p - s))%Z).
  { split; [apply Z.div_pos; lia|]. apply Z.div_lt_upper_bound; lia. }
  assert (Vip' : digits_value ip = (Z.abs v / 10 ^ Z.of_nat s)%Z).
  { rewrite Vip. apply Z.mod_small. rewrite Nat2Z.inj_succ, Z.pow_succ_r by lia. lia. }
  assert (Vall : digits_value (ip ++ fr) = Z.abs v).
  { rewrite digits_value_app, Hlen, Vip', Vfr.
    pose proof (Z.div_mod (Z.abs v) (10 ^ Z.of_nat s)). lia. }
  exists (v <? 0)%Z, ip, fr. split; [exact E|]. split.
  - unfold canonical. repeat (split; [assumption|]).
    rewrite Vall. intros Hneg. apply Z.ltb_lt in Hneg. lia.
  - split; [lia|]. rewrite Vall. unfold signed.
    destruct (Z.ltb_spec v 0); lia.
Qed.

(** The two directions of the round trip on values: what is decoded reads
    back as the value. *)
Lemma parse_format_decimal (p s : nat) (v : Z) :
  s <= p -> (Z.abs v < 10 ^ Z.of_nat p)%Z ->
  parse_decimal p s (format_decimal p s v) = Some v.
Proof.
  intros Hsp Hv.
  destruct (@format_decimal_canonical p s v Hsp Hv)
    as (neg & ip & fr & -> & (Hne & Hip & Hfr & Hlen & _) & Hlt & ->).
  rewrite parse_decimal_literal; try assumption.
  - now rewrite Hlen, Nat.sub_diag, Z.pow_0_r, Z.mul_1_r.
  - destruct ip; [congruence | discriminate].
  - lia.
Qed.

(** The spec names the decoded text only through the round trip.  That
    fixes it: a decoder that gives every canonical literal back writes each
    value of the column the way [format_decimal] does. *)
Lemma format_decimal_is_forced (p s : nat) (decode : Z -> bytes) :
  s <= p ->
  (forall neg ip fr,
      canonical s neg ip fr -> (digits_value ip < 10 ^ Z.of_nat (p - s))%Z ->
      decode (signed neg (digits_value (ip ++ fr))) = decimal_token neg ip fr) ->
  forall v, (Z.abs v < 10 ^ Z.of_nat p)%Z -> decode v = format_decimal p s v.
Proof.
  intros Hsp Hdec v Hv.
  destruct (@format_decimal_canonical p s v Hsp Hv)
    as (neg & ip & fr & -> & Hc & Hlt & E).
  rewrite E at 1. now apply Hdec.
Qed.




(** ** Timestamp cells *)

(** The empty token is null; every other token goes to the parser with the
    pattern and the zone the source configures.  What the parser makes of
    the zone is decided outside the repository. *)
Lemma timestamp_tokens (strptime : string -> string -> bytes -> option Z)
      (tok : bytes) :
  convert_cell strptime convert_options TIMESTAMP tok
  = match tok with
    | [] => Some VNull
    | _ => option_map VTimestamp
                      (strptime "%Y-%m-%d %H:%M:%S"%string "America/New_York"%string tok)
    end.
Proof.
  destruct tok as [|b tok]; [reflexivity|].
  unfold convert_cell. cbn [convert_options null_values member existsb].
  rewrite bytes_eqb_neq by discriminate. reflexivity.
Qed.

(** * Further properties of the normalizer *)

(** ** What the pattern matches *)

Lemma fields_count (l : bytes) :
  List.length (fields l) = S (count_occ Byte.byte_eq_dec l COMMA).
Proof.
  unfold fields. induction l as [|b l IH]; [reflexivity|].
  cbn [split count_occ]. unfold is_comma at 1.
  destruct (Byte.byte_eq_dec b COMMA) as [->|Hne].
  - cbn. now rewrite IH.
  - destruct (Byte.eqb b COMMA) eqn:E.
    + apply Byte.byte_dec_bl in E. congruence.
    + pose proof (split_nonempty is_comma l) as Hs.
      destruct (split is_comma l) as [|f fs]; [congruence|]. exact IH.
Qed.

(** X1.  [PATTERN_DATA] matches a line exactly when the line holds at least
    19 commas, wherever they are and whatever else the line holds. *)
Theorem pattern_matches_iff_19_commas (l : bytes) :
  (exists g, re_match PATTERN_DATA l = Some g)
  <-> 19 <= count_occ Byte.byte_eq_dec l COMMA.
Proof.
  pose proof (fields_count l) as Hc. split.
  - intros [g Hg]. apply re_match_some_enough in Hg.
    unfold enough_fields in Hg. lia.
  - intros H. assert (Hen : enough_fields l) by (unfold enough_fields; lia).
    destruct (re_match_enough Hen) as (g & Hg & _). now exists g.
Qed.

(** Every match the engine reports splits the subject in two. *)
Lemma star_splits_sound (p : byte -> bool) (s : bytes) :
  Forall (fun m => fst m ++ snd m = s) (star_splits p s).
Proof.
  induction s as [|b s IH]; cbn [star_splits].
  - now constructor.
  - destruct (p b); [|now constructor].
    apply Forall_app. split; [|now constructor].
    apply Forall_map. revert IH. apply Forall_impl.
    intros [m r]. cbn. now intros ->.
Qed.

Lemma run_sound (r : regex) (s : bytes) :
  Forall (fun m => fst m ++ snd m = s) (run r s).
Proof.
  revert s. induction r as [|b|p|r1 IH1 r2 IH2]; intros s; cbn [run].
  - now constructor.
  - destruct s as [|c s]; [constructor|].
    destruct (Byte.eqb c b); now constructor.
  - apply star_splits_sound.
  - specialize (IH1 s). induction IH1 as [|m1 ms H1 _ IH]; [constructor|].
    cbn [flat_map]. apply Forall_app. split; [|exact IH].
    apply Forall_map. specialize (IH2 (snd m1)). revert IH2. apply Forall_impl.
    intros m2 H2. cbn. now rewrite <- app_assoc, H2.
Qed.

(** X2.  Whatever the pattern, what [match] captures is a prefix of the
    line: the normalizer cuts lines, it never changes or reorders bytes. *)
Theorem match_is_a_prefix (r : regex) (l g : bytes) :
  re_match r l = Some g -> exists rest, l = g ++ rest.
Proof.
  unfold re_match. pose proof (run_sound r l) as H.
  destruct (run r l) as [|m ms]; [discriminate|].
  intros [= <-]. inversion H; subst. now exists (snd m).
Qed.

Lemma match_is_a_prefix_witness :
  exists rest, sample_row = join COMMA (kept sample_row) ++ rest.
Proof.
  apply (@match_is_a_prefix PATTERN_DATA). vm_compute. reflexivity.
Defined.

(** ** Only the first 20 fields count *)

Lemma split_app_free (x t : bytes) :
  comma_free x ->
  split is_comma (x ++ t)
  = (x ++ hd [] (split is_comma t)) :: tl (split is_comma t).
Proof.
  unfold sep_free. induction x as [|b x IH]; intros H.
  - cbn [app]. pose proof (split_nonempty is_comma t) as Hs.
    now destruct (split is_comma t).
  - cbn [forallb] in H. apply andb_prop in H as [Hb Hx].
    apply negb_true_iff in Hb. cbn [app split]. rewrite Hb, (IH Hx).
    reflexivity.
Qed.

Lemma split_fields_prefix (ps : list bytes) (r : bytes) :
  Forall comma_free ps ->
  split is_comma (List.concat (List.map (fun f => f ++ [COMMA]) ps) ++ r)
  = ps ++ split is_comma r.
Proof.
  induction 1 as [|p ps Hp Hps IH]; [reflexivity|].
  cbn [List.map List.concat]. rewrite <- !app_assoc. cbn [app].
  rewrite split_app_sep by (exact is_comma_COMMA || exact Hp).
  now rewrite IH.
Qed.

Lemma take_while_app_cons (X : Type) (q : X -> bool) (x : list X) (t : list X) :
  forallb q x = true ->
  match t with [] => True | c :: _ => q c = false end ->
  take_while q (x ++ t) = x.
Proof.
  intros Hx Ht. induction x as [|b x IH]; cbn [app take_while].
  - destruct t as [|c t]; [reflexivity|]. cbn. now rewrite Ht.
  - cbn [forallb] in Hx. apply andb_prop in Hx as [Hb Hx]. now rewrite Hb, IH.
Qed.

(** X3.  The capture depends on the first 20 fields alone.  After twenty
    comma-free fields, the last without CR or LF, anything may follow that
    starts with a comma, a CR or an LF (further fields, either kind of line
    ending, nothing at all): the capture is the twenty fields joined by
    their commas. *)
Theorem trailing_bytes_are_dropped (ps : list bytes) (x t : bytes) :
  List.length ps = 19 -> Forall comma_free ps -> comma_free x ->
  forallb not_cr_lf x = true ->
  match t with [] => True | c :: _ => c = COMMA \/ c = CR \/ c = LF end ->
  re_match PATTERN_DATA (join COMMA (ps ++ [x]) ++ t) = Some (join COMMA (ps ++ [x]))
  /\ cleaned (join COMMA (ps ++ [x]) ++ t) = join COMMA (ps ++ [x]) ++ [LF].
Proof.
  intros Hlen Hps Hx Heol Ht.
  assert (Hf : first_fields 20 (join COMMA (ps ++ [x]) ++ t)
               = Some (join COMMA (ps ++ [x]))).
  { assert (E : join COMMA (ps ++ [x]) ++ t
                = List.concat (List.map (fun f => f ++ [COMMA]) ps) ++ (x ++ t))
      by (rewrite join_snoc; now rewrite <- app_assoc).
    unfold first_fields, fields. change (20 - 1) with 19. rewrite E.
    rewrite split_fields_prefix, split_app_free by assumption.
    rewrite length_app, Hlen. cbn [List.length].
    destruct (Nat.ltb_spec (19 + S (List.length (tl (split is_comma t)))) 20);
      [lia|].
    rewrite firstn_app, Hlen, Nat.sub_diag, firstn_O, app_nil_r.
    rewrite <- Hlen at 1. rewrite firstn_all.
    rewrite app_nth2 by lia. rewrite Hlen, Nat.sub_diag. cbn [nth].
    replace (stop_at_eol (x ++ hd [] (split is_comma t))) with x; [reflexivity|].
    symmetry. unfold stop_at_eol.
    apply take_while_app_cons; [exact Heol|].
    destruct t as [|c t']; [exact I|]. cbn [split].
    destruct Ht as [-> | [-> | ->]]; cbn.
    - exact I.
    - pose proof (split_nonempty is_comma t') as Hs.
      now destruct (split is_comma t').
    - pose proof (split_nonempty is_comma t') as Hs.
      now destruct (split is_comma t'). }
  split.
  - now rewrite PATTERN_DATA_first_fields.
  - unfold cleaned. change (List.length HEADER) with 20. now rewrite Hf.
Qed.

Lemma trailing_bytes_are_dropped_witness :
  cleaned (join COMMA (List.repeat [x61] 19 ++ [[x62]]) ++ [COMMA; x63; CR; LF])
  = join COMMA (List.repeat [x61] 19 ++ [[x62]]) ++ [LF].
Proof.
  refine (proj2 (@trailing_bytes_are_dropped
                   (List.repeat [x61] 19) [x62] [COMMA; x63; CR; LF] _ _ _ _ _)).
  - reflexivity.
  - apply Forall_forall. intros f Hf. apply repeat_spec in Hf. now subst.
  - reflexivity.
  - reflexivity.
  - now left.
Defined.

(** ** The header check, byte by byte *)

Lemma rstrip_app_space (l w : bytes) :
  forallb is_space w = true -> rstrip (l ++ w) = rstrip l.
Proof.
  intros Hw. induction l as [|b l IH]; cbn [app].
  - induction w as [|c w IHw]; [reflexivity|].
    cbn [forallb] in Hw. apply andb_prop in Hw as [Hc Hw].
    cbn [rstrip]. now rewrite (IHw Hw), Hc.
  - cbn [rstrip]. now rewrite IH.
Qed.

(** X4.  Whitespace behind the header is ignored: a line and the same line
    followed by any run of spaces, tabs, CR, LF, VT or FF split into the same
    header fields, so a header ending in CR LF passes as one ending in LF. *)
Theorem header_ignores_trailing_whitespace (line w : bytes) :
  forallb is_space w = true ->
  header_fields (line ++ w) = header_fields line.
Proof.
  intros Hw. unfold header_fields. now rewrite rstrip_app_space.
Qed.

Lemma header_ignores_trailing_whitespace_witness :
  header_fields (rstrip header_line ++ [x20; CR; LF]) = Some HEADER.
Proof.
  rewrite (@header_ignores_trailing_whitespace (rstrip header_line) [x20; CR; LF])
    by reflexivity.
  vm_compute. reflexivity.
Defined.

Lemma decode_ascii (s : bytes) :
  forallb (fun b => N.ltb (Byte.to_N b) 128) s = true ->
  decode s = Some (List.map Byte.to_N s).
Proof.
  induction s as [|b s IH]; [reflexivity|].
  cbn [forallb]. intros H. apply andb_prop in H as [Hb Hs].
  cbn [decode List.map]. now rewrite Hb, (IH Hs).
Qed.

Lemma lead2_high (b0 : byte) :
  in_range 194 223 (Byte.to_N b0) = true ->
  (2 <= N.land (Byte.to_N b0) 31)%N.
Proof.
  destruct b0; vm_compute; (discriminate || (intros _ H; discriminate)).
Qed.

Lemma lead3_high (b0 : byte) :
  in_range 224 239 (Byte.to_N b0) = true ->
  N.eqb (Byte.to_N b0) 224 = false ->
  (1 <= N.land (Byte.to_N b0) 15)%N.
Proof.
  destruct b0; vm_compute;
    (discriminate || (intros _ H; discriminate) || (intros _ _ H; discriminate)).
Qed.

Lemma lead4_high (b0 : byte) :
  in_range 240 244 (Byte.to_N b0) = true ->
  N.eqb (Byte.to_N b0) 240 = false ->
  (1 <= N.land (Byte.to_N b0) 7)%N.
Proof.
  destruct b0; vm_compute;
    (discriminate || (intros _ H; discriminate) || (intros _ _ H; discriminate)).
Qed.

Lemma cont_high (lo : N) (b1 : byte) (k : N) :
  (lo = 160 /\ k = 32 \/ lo = 144 /\ k = 16)%N ->
  N.leb lo (Byte.to_N b1) = true -> N.leb (Byte.to_N b1) 191 = true ->
  (k <= cont_bits b1)%N.
Proof.
  intros [[-> ->] | [-> ->]]; unfold cont_bits;
    destruct b1; vm_compute;
    (discriminate || (intros _ H; discriminate) || (intros _ _ H; discriminate)).
Qed.

(** A sequence of two bytes or more never decodes to an ASCII character. *)
Lemma decode_ascii_inv (n : nat) (s : bytes) (u : str) :
  List.length s <= n ->
  decode s = Some u -> Forall (fun c => (c < 128)%N) u ->
  u = List.map Byte.to_N s.
Proof.
  revert s u. induction n as [|n IH]; intros s u Hn.
  - destruct s; [now intros [= <-] | simpl in Hn; lia].
  - destruct s as [|b0 s1]; [now intros [= <-]|].
    cbn [decode]. cbv zeta.
    destruct (N.ltb (Byte.to_N b0) 128) eqn:E0.
    + destruct (decode s1) as [u1|] eqn:E1; [|discriminate].
      cbn [option_map]. intros [= <-] Hall. inversion Hall; subst.
      cbn [List.map]. f_equal. apply (IH s1); [simpl in Hn; lia | exact E1 | assumption].
    + destruct (in_range 194 223 (Byte.to_N b0)) eqn:E2.
      { destruct s1 as [|b1 s2]; [discriminate|].
        destruct (in_range 128 191 (Byte.to_N b1)); [|discriminate].
        destruct (decode s2); [|discriminate]. cbn [option_map].
        intros [= <-] Hall. inversion Hall as [|? ? Hc _]; subst.
        apply lead2_high in E2. lia. }
      destruct (in_range 224 239 (Byte.to_N b0)) eqn:E3.
      { destruct s1 as [|b1 [|b2 s3]]; try discriminate.
        set (lo := if N.eqb (Byte.to_N b0) 224 then 160%N else 128%N).
        set (hi := if N.eqb (Byte.to_N b0) 237 then 159%N else 191%N).
        destruct (in_range lo hi (Byte.to_N b1) && in_range 128 191 (Byte.to_N b2))%bool
          eqn:E4; [|discriminate].
        destruct (decode s3); [|discriminate]. cbn [option_map].
        intros [= <-] Hall. inversion Hall as [|? ? Hc _]; subst.
        apply andb_prop in E4 as [E4 _]. unfold in_range in E4.
        apply andb_prop in E4 as [Elo Ehi].
        destruct (N.eqb (Byte.to_N b0) 224) eqn:E224.
        - assert (Hk : (32 <= cont_bits b1)%N).
          { apply (@cont_high 160 b1 32); [now left | exact Elo |].
            subst hi. destruct (N.eqb (Byte.to_N b0) 237);
              apply N.leb_le in Ehi; apply N.leb_le; lia. }
          lia.
        - pose proof (lead3_high b0 E3 E224). lia. }
      destruct (in_range 240 244 (Byte.to_N b0)) eqn:E5; [|discriminate].
      destruct s1 as [|b1 [|b2 [|b3 s4]]]; try discriminate.
      set (lo := if N.eqb (Byte.to_N b0) 240 then 144%N else 128%N).
      set (hi := if N.eqb (Byte.to_N b0) 244 then 143%N else 191%N).
      destruct (in_range lo hi (Byte.to_N b1) && in_range 128 191 (Byte.to_N b2)
                && in_range 128 191 (Byte.to_N b3))%bool eqn:E4; [|discriminate].
      destruct (decode s4); [|discriminate]. cbn [option_map].
      intros [= <-] Hall. inversion Hall as [|? ? Hc _]; subst.
      apply andb_prop in E4 as [E4 _]. apply andb_prop in E4 as [E4 _].
      unfold in_range in E4. apply andb_prop in E4 as [Elo Ehi].
      destruct (N.eqb (Byte.to_N b0) 240) eqn:E240.
      * assert (Hk : (16 <= cont_bits b1)%N).
        { apply (@cont_high 144 b1 16); [now right | exact Elo |].
          subst hi. destruct (N.eqb (Byte.to_N b0) 244);
            apply N.leb_le in Ehi; apply N.leb_le; lia. }
        lia.
      * pose proof (lead4_high b0 E5 E240). lia.
Qed.

Lemma is_comma_cp_eq (c : N) : is_comma_cp c = true -> c = 44%N.
Proof. apply N.eqb_eq. Qed.

(** X5.  The header check passes exactly when the first line, trailing
    whitespace aside, is byte for byte the 20 expected names joined by
    commas: decoding gives no other line a way in. *)
Theorem header_accepted_iff (url : bytes) :
  header_ok url
  <-> List.map Byte.to_N (rstrip (take_line url)) = join 44%N HEADER.
Proof.
  unfold header_ok, header_fields.
  set (s := rstrip (take_line url)). split.
  - destruct (decode s) as [u|] eqn:E; [|discriminate].
    cbn [option_map]. intros [= Hu].
    assert (Ej : u = join 44%N HEADER).
    { rewrite <- Hu. symmetry. apply join_split. exact is_comma_cp_eq. }
    rewrite <- Ej. symmetry. apply (@decode_ascii_inv (List.length s) s u);
      [lia | exact E |].
    rewrite Ej. apply Forall_forall. intros c Hc.
    assert (Hall : forallb (fun c => N.ltb c 128) (join 44%N HEADER) = true)
      by (vm_compute; reflexivity).
    rewrite forallb_forall in Hall. now apply N.ltb_lt, Hall.
  - intros Hs. rewrite decode_ascii.
    + cbn [option_map]. rewrite Hs. vm_compute. reflexivity.
    + assert (Hall : forallb (fun c => N.ltb c 128) (List.map Byte.to_N s) = true)
        by (rewrite Hs; vm_compute; reflexivity).
      rewrite forallb_forall in *. intros b Hb. apply Hall.
      now apply in_map.
Qed.

(** ** How the call ends, for every input *)

Lemma drop_while_all (X : Type) (q : X -> bool) (l : list X) :
  Forall (fun x => q x = true) l -> drop_while q l = [].
Proof.
  induction 1 as [|x l Hx _ IH]; [reflexivity|]. cbn. now rewrite Hx.
Qed.

(** X6.  A source that ends after the header, or holds nothing but
    whitespace-only lines behind it, is no error: the call returns, has read
    everything and has written nothing. *)
Theorem header_without_data_returns (url sink : bytes) :
  header_ok url ->
  Forall (fun l => is_blank l = true) (split_lines (drop_line url)) ->
  read_green_taxi_csv url sink = mkrun (mkfile url (List.length url)) sink Returned.
Proof.
  intros Hok Hblank.
  assert (Hd : data_lines url = []) by (now apply drop_while_all).
  rewrite read_all_good; rewrite ?Hd; [| exact Hok | constructor].
  cbn [List.map List.concat]. now rewrite app_nil_r.
Qed.

Lemma header_without_data_returns_witness :
  read_green_taxi_csv (header_line ++ [LF] ++ blank_row) []
  = mkrun (mkfile (header_line ++ [LF] ++ blank_row)
                  (List.length (header_line ++ [LF] ++ blank_row))) [] Returned.
Proof.
  apply header_without_data_returns.
  - vm_compute. reflexivity.
  - assert (E : split_lines (drop_line (header_line ++ [LF] ++ blank_row))
                = [[LF]; blank_row]) by (vm_compute; reflexivity).
    rewrite E. constructor; [reflexivity|]. constructor; [reflexivity | constructor].
Defined.

Lemma clean_loop_raised (data : bytes) (ls : list bytes) (p : nat) (sink : bytes)
      (e : exn) :
  result (clean_loop data ls p sink) = Raised e ->
  exists good bad rest,
    ls = good ++ bad :: rest /\ Forall enough_fields good
    /\ List.length (fields bad) < 20 /\ e = InvalidDataError bad.
Proof.
  revert p sink. induction ls as [|l ls IH]; intros p sink; [discriminate|].
  cbn [clean_loop]. destruct (re_match PATTERN_DATA l) as [g|] eqn:E.
  - intros H. destruct (IH _ _ H) as (good & bad & rest & -> & Hg & Hb & ->).
    exists (l :: good), bad, rest. repeat split; auto.
    constructor; [now apply re_match_some_enough in E | exact Hg].
  - cbn. intros [= <-]. exists [], l, ls. repeat split; [constructor|].
    destruct (Nat.lt_ge_cases (List.length (fields l)) 20) as [Hlt|Hge]; [exact Hlt|].
    destruct (@re_match_enough l Hge) as (g & Hg & _). congruence.
Qed.

(** X8.  The call returns normally exactly when the header is the expected
    one and every data line holds at least 20 fields; it then has read the
    whole source and written one cleaned line per data line. *)
Theorem returns_iff_all_lines_fit (url sink : bytes) :
  (result (read_green_taxi_csv url sink) = Returned
   <-> header_ok url /\ Forall enough_fields (data_lines url))
  /\ (result (read_green_taxi_csv url sink) = Returned ->
      remaining (fobj_src (read_green_taxi_csv url sink)) = []
      /\ fobj (read_green_taxi_csv url sink)
         = sink ++ List.concat (List.map cleaned (data_lines url))).
Proof.
  split; [split|].
  - apply read_returned.
  - intros [Hok Hen]. now rewrite read_all_good.
  - intros H. apply read_returned in H as [Hok Hen].
    rewrite read_all_good by assumption. cbn [fobj_src fobj]. split; [|reflexivity].
    unfold remaining. cbn [content pos]. apply skipn_all.
Qed.

Lemma returns_iff_all_lines_fit_witness :
  remaining (fobj_src (read_green_taxi_csv sample_url [])) = [].
Proof.
  apply (proj2 (returns_iff_all_lines_fit sample_url [])).
  vm_compute. reflexivity.
Defined.

(** X9.  The three ways the call can fail.  [InvalidHeaderError] carries
    the first line, which decodes and differs from the header;
    [UnicodeDecodeError] means the first line does not decode;
    [InvalidDataError] carries the first data line with fewer than 20
    fields, met after a valid header.  A line of 20 fields or more is never
    reported. *)
Theorem failures_are_classified (url sink : bytes) (e : exn) :
  result (read_green_taxi_csv url sink) = Raised e ->
  (e = InvalidHeaderError (take_line url)
   /\ exists u, decode (rstrip (take_line url)) = Some u
                /\ split is_comma_cp u <> HEADER)
  \/ (e = UnicodeDecodeError (rstrip (take_line url))
      /\ decode (rstrip (take_line url)) = None)
  \/ (header_ok url
      /\ exists good bad rest,
           data_lines url = good ++ bad :: rest
           /\ Forall enough_fields good
           /\ List.length (fields bad) < 20
           /\ e = InvalidDataError bad).
Proof.
  destruct (header_ok_dec url) as [Hok|Hbad].
  - rewrite read_header_ok by exact Hok. intros H.
    right. right. split; [exact Hok|]. now apply clean_loop_raised in H.
  - rewrite read_header_bad by exact Hbad. cbn [result].
    unfold header_fields in Hbad.
    destruct (decode (rstrip (take_line url))) as [u|] eqn:E.
    + intros [= <-]. left. split; [reflexivity|]. exists u. split; [reflexivity|].
      cbn [option_map] in Hbad. congruence.
    + intros [= <-]. right. left. now split.
Qed.

Lemma failures_are_classified_witness :
  exists good bad rest,
    data_lines short_url = good ++ bad :: rest
    /\ Forall enough_fields good
    /\ List.length (fields bad) < 20
    /\ InvalidDataError short_row = InvalidDataError bad.
Proof.
  assert (H : result (read_green_taxi_csv short_url []) = Raised (InvalidDataError short_row))
    by (vm_compute; reflexivity).
  destruct (@failures_are_classified short_url [] _ H) as [[E _] | [[E _] | [_ T]]].
  - discriminate E.
  - discriminate E.
  - exact T.
Defined.

(** * Properties of the feature query *)

Lemma write_cases_from (case : nat -> str) (num : nat) (k a : nat) (io : str) :
  a + k = num ->
  write_cases case num (seq a k) io
  = io ++ str_join [44%N; NL] (List.map case (seq a k)).
Proof.
  revert a io. induction k as [|k IH]; intros a io Hak.
  - cbn. now rewrite app_nil_r.
  - cbn [seq write_cases List.map]. destruct k as [|k].
    + assert (E : (a <? num - 1) = false) by (apply Nat.ltb_ge; lia).
      rewrite E. reflexivity.
    + assert (E : (a <? num - 1) = true) by (apply Nat.ltb_lt; lia).
      rewrite E. rewrite IH by lia. cbn [seq List.map str_join].
      now rewrite <- !app_assoc.
Qed.

(** X10.  The loop of a one-hot encoding writes one select item per index
    of [range(num)], in order, with a comma and a line feed between two
    items and nothing after the last, whatever the count and whatever was
    written before; so the two encodings of [build_query] are the 24 hour
    items and the 7 day items joined that way. *)
Theorem one_hot_loop_joins_items (case : nat -> str) (num : nat) (io : str) :
  write_cases case num (seq 0 num) io
  = io ++ str_join [44%N; NL] (List.map case (seq 0 num))
  /\ one_hot_hour = str_join [44%N; NL] (List.map hour_case (seq 0 24))
  /\ one_hot_dow = str_join [44%N; NL] (List.map dow_case (seq 0 7)).
Proof.
  split; [now apply write_cases_from|].
  unfold one_hot_hour, one_hot_dow.
  split; now rewrite write_cases_from.
Qed.

Lemma template_lines :
  template
  = join NL (List.map str_of
      [ "SELECT"; "*,"; "{one_hot_hour},"; "{one_hot_dow},"; "{duration},";
        "{jfk}"; "FROM"; "{table_alias}" ]%string).
Proof. vm_compute. reflexivity. Qed.

(** X11.  [build_query] raises nothing, whatever the table alias and the
    rendering of the four bounds: the query is the template without its
    indentation, each replacement field replaced by its value.  The alias
    is the last line as it was given: braces in it are not read as
    replacement fields, and nothing in it is quoted or escaped. *)
Theorem build_query_fills_the_template (lon_min lon_max lat_min lat_max : str)
        (table_alias : str) :
  build_query lon_min lon_max lat_min lat_max table_alias
  = inl (join NL
           [ str_of "SELECT";
             str_of "*,";
             one_hot_hour ++ [44%N];
             one_hot_dow ++ [44%N];
             duration ++ [44%N];
             jfk lon_min lon_max lat_min lat_max;
             str_of "FROM";
             table_alias ]).
Proof.
  unfold build_query, str_format. rewrite template_lines.
  generalize (jfk lon_min lon_max lat_min lat_max), duration, one_hot_dow, one_hot_hour.
  intros j d w h.
  cbv -[app]. cbn [app]. rewrite <- !app_assoc. cbn [app]. rewrite app_nil_r.
  reflexivity.
Qed.

Lemma uint_str_digits (d : Decimal.uint) :
  forallb (fun c => (48 <=? c) && (c <=? 57))%N (uint_str d) = true.
Proof. induction d; cbn; auto. Qed.

Lemma uint_str_inj (d e : Decimal.uint) : uint_str d = uint_str e -> d = e.
Proof.
  revert e. induction d; destruct e; cbn; intros H; try discriminate H;
    try reflexivity; injection H as H; f_equal; auto.
Qed.

Lemma str_of_nat_inj (a b : nat) : str_of_nat a = str_of_nat b -> a = b.
Proof.
  unfold str_of_nat. intros H. apply uint_str_inj in H.
  rewrite <- (DecimalNat.Unsigned.of_to a), <- (DecimalNat.Unsigned.of_to b).
  now rewrite H.
Qed.

(** Two runs of digits, each followed by a blank, that start equal texts are
    the same run. *)
Lemma digits_then_blank (s t r r' : str) :
  forallb (fun c => (48 <=? c) && (c <=? 57))%N s = true ->
  forallb (fun c => (48 <=? c) && (c <=? 57))%N t = true ->
  s ++ 32%N :: r = t ++ 32%N :: r' -> s = t.
Proof.
  revert t. induction s as [|c s IH]; intros [|c' t] Hs Ht H; cbn in *.
  - reflexivity.
  - injection H as <- _. apply andb_prop in Ht as [Ht _]. discriminate Ht.
  - injection H as -> _. apply andb_prop in Hs as [Hs _]. discriminate Hs.
  - injection H as -> H. apply andb_prop in Hs as [_ Hs].
    apply andb_prop in Ht as [_ Ht]. f_equal. now apply IH.
Qed.

Lemma case_inj (head : str) (mid : nat -> str) (a b : nat) :
  head ++ str_of_nat a ++ 32%N :: mid a = head ++ str_of_nat b ++ 32%N :: mid b ->
  a = b.
Proof.
  intros H. apply app_inv_head in H. apply str_of_nat_inj.
  eapply digits_then_blank; [apply uint_str_digits | apply uint_str_digits | exact H].
Qed.

Lemma NoDup_map_seq (X : Type) (f : nat -> X) (a n : nat) :
  (forall i j, f i = f j -> i = j) -> NoDup (List.map f (seq a n)).
Proof.
  intros Hinj. revert a. induction n as [|n IH]; intros a; cbn; constructor.
  - intros Hin. apply in_map_iff in Hin as (j & Hj & Hin).
    apply Hinj in Hj. subst j. apply in_seq in Hin. lia.
  - apply IH.
Qed.

(** X12.  Different indices give different select items, for the hours and
    for the days: an encoding of [n] indices lists [n] items that differ
    from one another. *)
Theorem one_hot_items_are_distinct (n : nat) :
  NoDup (List.map hour_case (seq 0 n)) /\ NoDup (List.map dow_case (seq 0 n)).
Proof.
  split; apply NoDup_map_seq; intros i j H.
  - unfold hour_case in H. rewrite <- !app_assoc in H.
    change (str_of " THEN 1 ") with (32%N :: str_of "THEN 1 ") in H.
    cbn [app] in H. eapply case_inj with (mid := fun h => _ ++ _ ++ str_of_nat h).
    exact H.
  - unfold dow_case in H. rewrite <- !app_assoc in H.
    change (str_of " THEN 1 ") with (32%N :: str_of "THEN 1 ") in H.
    cbn [app] in H. eapply case_inj with (mid := fun h => _ ++ _ ++ str_of_nat h).
    exact H.
Qed.
